(** * The calculator core of [calculator.py]

    A shallow embedding of the input state machine
    ([CalculatorLayout.process_input]), of the evaluation step it triggers
    ([evaluate_expression], [is_safe_expression]) and of the part of the
    Python runtime these two rely on: [str] operations, the three regular
    expressions, [eval] on the characters the validation lets through,
    [int]/[float] arithmetic with its exceptions, and [str] of a number.

    Python strings are modelled as [string]; a character is its code
    point, so the model covers code points 0..255.  Python [int] is [Z],
    Python [float] is IEEE-754 binary64 as [spec_float] with precision 53
    and maximal exponent 1024. *)

From Stdlib Require Import ZArith List String Ascii Bool Lia.
From Stdlib Require Import SpecFloat Decimal DecimalString.
From Stdlib Require DecimalFacts DecimalPos DecimalN.
Import ListNotations.

Local Open Scope string_scope.
Local Open Scope Z_scope.

(** ** Python string operations *)

Module PyStr.

(** One character as a string: [value] of a button, [s[-1]]. *)
Definition char (c : ascii) : string := String c "".

(** [sub in s] on strings: substring test. *)
Fixpoint str_in (sub s : string) : bool :=
  prefix sub s ||
  match s with
  | "" => false
  | String _ t => str_in sub t
  end.

(** [s[:-1]]. *)
Fixpoint drop_last (s : string) : string :=
  match s with
  | "" => ""
  | String c t => match t with "" => "" | String _ _ => String c (drop_last t) end
  end.

(** [s[-1]], which raises on the empty string. *)
Fixpoint last_char (s : string) : option ascii :=
  match s with
  | "" => None
  | String c t => match t with "" => Some c | String _ _ => last_char t end
  end.

(** [s[0]]. *)
Definition first_char (s : string) : option ascii :=
  match s with
  | "" => None
  | String c _ => Some c
  end.

(** [s.count(c)] for a one-character [c]. *)
Fixpoint count (c : ascii) (s : string) : nat :=
  match s with
  | "" => O
  | String a t => ((if Ascii.eqb a c then 1 else 0) + count c t)%nat
  end.

Definition code (c : ascii) : N := N_of_ascii c.

Definition is_ascii_digit (c : ascii) : bool :=
  (48 <=? code c)%N && (code c <=? 57)%N.

(** A character for which [str.isdigit] holds: the ASCII digits and, below
    code point 256, the superscripts 2, 3 and 1. *)
Definition char_isdigit (c : ascii) : bool :=
  is_ascii_digit c ||
  (code c =? 178)%N || (code c =? 179)%N || (code c =? 185)%N.

Fixpoint all_chars (p : ascii -> bool) (s : string) : bool :=
  match s with
  | "" => true
  | String c t => p c && all_chars p t
  end.

(** [s.isdigit()]: non-empty and every character a digit. *)
Definition isdigit (s : string) : bool :=
  match s with
  | "" => false
  | String _ _ => all_chars char_isdigit s
  end.

(** [c in '+-*/'] for a one-character string [c]. *)
Definition is_operator_char (c : ascii) : bool :=
  Ascii.eqb c "+" || Ascii.eqb c "-" || Ascii.eqb c "*" || Ascii.eqb c "/".

End PyStr.
Import PyStr.

(** ** The regular expressions of the source *)

Module PyRe.

(** [\d] of a [str] pattern, below code point 256. *)
Definition re_digit (c : ascii) : bool := is_ascii_digit c.

(** [\s] of a [str] pattern, below code point 256. *)
Definition re_space (c : ascii) : bool :=
  let n := code c in
  ((9 <=? n) && (n <=? 13) || (28 <=? n) && (n <=? 32) ||
   (n =? 133) || (n =? 160))%N.

(** The character class [[\d+\-*/.()\s]]. *)
Definition safe_char (c : ascii) : bool :=
  re_digit c || is_operator_char c || Ascii.eqb c "." ||
  Ascii.eqb c "(" || Ascii.eqb c ")" || re_space c.

(** [re.match(r'^[\d+\-*/.()\s]+$', s)] finds a match. *)
Definition match_safe_pattern (s : string) : bool :=
  match s with
  | "" => false
  | String _ _ => all_chars safe_char s
  end.

(** [re.search(r'[+\-*/]{2,}', s)] finds a match. *)
Fixpoint search_consecutive_operators (s : string) : bool :=
  match s with
  | "" => false
  | String a t =>
      match t with
      | "" => false
      | String b _ =>
          is_operator_char a && is_operator_char b
          || search_consecutive_operators t
      end
  end.

Fixpoint skip_digits (s : string) : string :=
  match s with
  | "" => ""
  | String c t => if re_digit c then skip_digits t else s
  end.

(** [re.search(r'\.\d*\.', s)] finds a match. *)
Fixpoint search_multiple_dots (s : string) : bool :=
  match s with
  | "" => false
  | String c t =>
      Ascii.eqb c "." &&
        match skip_digits t with
        | String d _ => Ascii.eqb d "."
        | "" => false
        end
      || search_multiple_dots t
  end.

(** [re.split(r'([+\-*/])', s)]: the pieces between operator characters,
    with the operators themselves (the pattern has a capturing group). *)
Fixpoint split_operators_from (piece s : string) : list string :=
  match s with
  | "" => [piece]
  | String c t =>
      if is_operator_char c
      then piece :: char c :: split_operators_from "" t
      else split_operators_from (piece ++ char c) t
  end.

Definition split_operators (s : string) : list string :=
  split_operators_from "" s.

End PyRe.
Import PyRe.

(** ** Python numbers, exceptions and arithmetic *)

Module PyNum.

(** The exception classes of the model: those of arithmetic, of the
    parser, of [int] and [str], and of a name read unbound.
    [UnboundLocalError] is a subclass of [NameError]; [SyntaxError] also
    stands for its subclasses [IndentationError] and [TabError].
    [RecursionError] is not among them, see [py_eval]. *)
Inductive exn : Type :=
  | ZeroDivisionError
  | OverflowError
  | SyntaxError
  | NameError
  | UnboundLocalError
  | TypeError
  | ValueError.

Definition exn_eqb (a b : exn) : bool :=
  match a, b with
  | ZeroDivisionError, ZeroDivisionError
  | OverflowError, OverflowError
  | SyntaxError, SyntaxError
  | NameError, NameError
  | UnboundLocalError, UnboundLocalError
  | TypeError, TypeError
  | ValueError, ValueError => true
  | _, _ => false
  end.

(** [isinstance(e, cls)] on these classes. *)
Definition exn_isinstance (e cls : exn) : bool :=
  exn_eqb e cls ||
  match e, cls with
  | UnboundLocalError, NameError => true
  | _, _ => false
  end.

Inductive result (A : Type) : Type :=
  | Ok (a : A)
  | Raise (e : exn).
Arguments Ok {A} a.
Arguments Raise {A} e.

Definition bind {A B : Type} (r : result A) (k : A -> result B) : result B :=
  match r with
  | Ok a => k a
  | Raise e => Raise e
  end.

Notation "x <- r ;; k" := (bind r (fun x => k))
  (at level 61, r at next level, right associativity).

(** binary64 *)
Definition prec : Z := 53.
Definition emax : Z := 1024.
Definition float : Type := spec_float.

Definition pos_inf : float := S754_infinity false.
Definition neg_inf : float := S754_infinity true.

(** The values an expression over digits, operators, dots and parentheses
    can have: an [int], a [float], or the empty tuple [()]. *)
Inductive pyval : Type :=
  | VInt (z : Z)
  | VFloat (f : float)
  | VEmptyTuple.

(** [isinstance(v, (int, float))]. *)
Definition is_number (v : pyval) : bool :=
  match v with
  | VInt _ | VFloat _ => true
  | VEmptyTuple => false
  end.

(** The float nearest to [n / d] (ties to even), with sign [s]; an
    infinity when the quotient is out of range. *)
Definition float_of_ratio (s : bool) (n d : positive) : float :=
  let '(q, e, l) := SFdiv_core_binary prec emax (Zpos n) 0 (Zpos d) 0 in
  binary_round_aux prec emax s q e l.

(** The float nearest to the integer [z]. *)
Definition float_of_Z (z : Z) : float := binary_normalize prec emax z 0 false.

Definition is_inf (f : float) : bool :=
  match f with
  | S754_infinity _ => true
  | _ => false
  end.

Definition is_zero (f : float) : bool :=
  match f with
  | S754_zero _ => true
  | _ => false
  end.

(** Conversion of an [int] operand of a float operation: too large an
    [int] raises [OverflowError]. *)
Definition int_to_float (z : Z) : result float :=
  let f := float_of_Z z in
  if is_inf f then Raise OverflowError else Ok f.

(** [a / b] on two [int]s: the correctly rounded quotient. *)
Definition int_truediv (a b : Z) : result float :=
  if b =? 0 then Raise ZeroDivisionError
  else if a =? 0 then Ok (S754_zero (b <? 0))
  else
    let f := float_of_ratio (xorb (a <? 0) (b <? 0))
                            (Z.to_pos (Z.abs a)) (Z.to_pos (Z.abs b)) in
    if is_inf f then Raise OverflowError else Ok f.

(** The integer a float is equal to, when it is equal to one. *)
Definition float_integral_value (f : float) : option Z :=
  match f with
  | S754_zero _ => Some 0
  | S754_finite s m e =>
      if 0 <=? e then Some (cond_Zopp s (Z.shiftl (Zpos m) e))
      else if Zpos m mod 2 ^ (- e) =? 0
           then Some (cond_Zopp s (Z.shiftl (Zpos m) e))
           else None
  | _ => None
  end.

(** [a == b]; a float and an int are compared exactly. *)
Definition py_eq (a b : pyval) : bool :=
  match a, b with
  | VInt x, VInt y => x =? y
  | VFloat f, VFloat g => SFeqb f g
  | VInt x, VFloat f | VFloat f, VInt x =>
      match float_integral_value f with
      | Some y => x =? y
      | None => false
      end
  | VEmptyTuple, VEmptyTuple => true
  | _, _ => false
  end.

(** [int(v)] on a number: truncation toward zero. *)
Definition py_int (v : pyval) : result Z :=
  match v with
  | VInt z => Ok z
  | VFloat S754_nan => Raise ValueError
  | VFloat (S754_infinity _) => Raise OverflowError
  | VFloat (S754_zero _) => Ok 0
  | VFloat (S754_finite s m e) => Ok (cond_Zopp s (Z.shiftl (Zpos m) e))
  | VEmptyTuple => Raise TypeError
  end.

(** The operand of a float operation as a C double. *)
Definition as_double (v : pyval) : result float :=
  match v with
  | VFloat f => Ok f
  | VInt z => int_to_float z
  | VEmptyTuple => Raise TypeError
  end.

Definition float_binop (op : float -> float -> float) (a b : pyval)
  : result pyval :=
  x <- as_double a ;;
  y <- as_double b ;;
  Ok (VFloat (op x y)).

Definition py_add (a b : pyval) : result pyval :=
  match a, b with
  | VInt x, VInt y => Ok (VInt (x + y))
  | VEmptyTuple, VEmptyTuple => Ok VEmptyTuple
  | VEmptyTuple, _ | _, VEmptyTuple => Raise TypeError
  | _, _ => float_binop (SFadd prec emax) a b
  end.

Definition py_sub (a b : pyval) : result pyval :=
  match a, b with
  | VInt x, VInt y => Ok (VInt (x - y))
  | VEmptyTuple, _ | _, VEmptyTuple => Raise TypeError
  | _, _ => float_binop (SFsub prec emax) a b
  end.

(** A repetition count must fit a machine index ([Py_ssize_t], 64 bits). *)
Definition fits_ssize_t (n : Z) : bool :=
  (- 2 ^ 63 <=? n) && (n <? 2 ^ 63).

Definition py_mul (a b : pyval) : result pyval :=
  match a, b with
  | VInt x, VInt y => Ok (VInt (x * y))
  | VEmptyTuple, VInt n | VInt n, VEmptyTuple =>
      if fits_ssize_t n then Ok VEmptyTuple else Raise OverflowError
  | VEmptyTuple, _ | _, VEmptyTuple => Raise TypeError
  | _, _ => float_binop (SFmul prec emax) a b
  end.

Definition py_truediv (a b : pyval) : result pyval :=
  match a, b with
  | VInt x, VInt y => f <- int_truediv x y ;; Ok (VFloat f)
  | VEmptyTuple, _ | _, VEmptyTuple => Raise TypeError
  | _, _ =>
      x <- as_double a ;;
      y <- as_double b ;;
      if is_zero y then Raise ZeroDivisionError
      else Ok (VFloat (SFdiv prec emax x y))
  end.

Definition py_neg (a : pyval) : result pyval :=
  match a with
  | VInt x => Ok (VInt (- x))
  | VFloat f => Ok (VFloat (SFopp f))
  | VEmptyTuple => Raise TypeError
  end.

Definition py_pos (a : pyval) : result pyval :=
  match a with
  | VEmptyTuple => Raise TypeError
  | _ => Ok a
  end.

End PyNum.
Import PyNum.

(** ** [str] of a number *)

Module PyFmt.

(** Decimal digits of a natural number, ["0"] for zero. *)
Definition digits_of_N (n : N) : string :=
  NilZero.string_of_uint (N.to_uint n).

(** Python 3.11 and later refuse to convert between [str] and an [int] of
    more than [sys.get_int_max_str_digits()] digits, 4300 unless the
    interpreter is configured otherwise. *)
Definition int_max_str_digits : nat := 4300.

Definition int_digits (z : Z) : string := digits_of_N (Z.abs_N z).

Definition int_text (z : Z) : string :=
  ((if (z <? 0)%Z then "-" else "") ++ int_digits z)%string.

(** [str(z)] for an [int]. *)
Definition str_int (z : Z) : result string :=
  if (int_max_str_digits <? String.length (int_digits z))%nat
  then Raise ValueError
  else Ok (int_text z).

(** [n / d < 10 ^ k], for positive [n] and [d]. *)
Definition below_pow10 (n d k : Z) : bool :=
  if 0 <=? k then n <? 10 ^ k * d else n * 10 ^ (- k) <? d.

Fixpoint search_decpt (fuel : nat) (n d k : Z) : Z :=
  match fuel with
  | O => k
  | S fuel' => if below_pow10 n d k then k else search_decpt fuel' n d (k + 1)
  end.

(** The least [k] with [n / d < 10 ^ k]: the position of the decimal point
    of [n / d] relative to its first significant digit.  The search starts
    from an estimate that lies at most four below. *)
Definition decimal_point (n d : Z) : Z :=
  let l := Z.log2 n - Z.log2 d - 1 in
  search_decpt 8 n d (l * 30103 / 100000 - 1).

(** The float nearest to [d * 10 ^ q]: how a decimal literal is read. *)
Definition float_of_decimal (d : positive) (q : Z) : float :=
  if 0 <=? q then float_of_ratio false (d * Z.to_pos (10 ^ q)) 1
  else float_of_ratio false d (Z.to_pos (10 ^ (- q))).

Definition reads_back (f : float) (d q : Z) : bool :=
  match d with
  | Zpos p => SFeqb (float_of_decimal p q) f
  | _ => false
  end.

(** The shortest decimal [d * 10 ^ q] that reads back as the positive
    float [m * 2 ^ e], trying [ndig], [ndig + 1], ... significant digits;
    of two candidates of one length the nearer wins, the even one on a
    tie.  Seventeen digits always suffice. *)
Fixpoint shortest_from (fuel : nat) (ndig : Z) (m : positive) (e k : Z)
  : Z * Z :=
  let f := S754_finite false m e in
  let q := k - ndig in
  let n := if 0 <=? e then Zpos m * 2 ^ e else Zpos m in
  let dn := if 0 <=? e then 1 else 2 ^ (- e) in
  let n' := if 0 <=? q then n else n * 10 ^ (- q) in
  let dn' := if 0 <=? q then dn * 10 ^ q else dn in
  let lo := n' / dn' in
  let r := n' mod dn' in
  let hi := lo + 1 in
  let lo_ok := reads_back f lo q in
  let hi_ok := reads_back f hi q in
  let nearer :=
    match 2 * r ?= dn' with
    | Lt => lo
    | Gt => hi
    | Eq => if Z.even lo then lo else hi
    end in
  match fuel with
  | O => (lo, q)
  | S fuel' =>
      if lo_ok && hi_ok then (nearer, q)
      else if lo_ok then (lo, q)
      else if hi_ok then (hi, q)
      else shortest_from fuel' (ndig + 1) m e k
  end.

Fixpoint strip_zeros (fuel : nat) (d q : Z) : Z * Z :=
  match fuel with
  | O => (d, q)
  | S fuel' =>
      if (d mod 10 =? 0) && negb (d =? 0)
      then strip_zeros fuel' (d / 10) (q + 1)
      else (d, q)
  end.

(** Digits and decimal-point position of the shortest representation:
    the value is [0.digits * 10 ^ decpt]. *)
Definition shortest_repr (m : positive) (e : Z) : string * Z :=
  let n := if 0 <=? e then Zpos m * 2 ^ e else Zpos m in
  let dn := if 0 <=? e then 1 else 2 ^ (- e) in
  let k := decimal_point n dn in
  let '(d0, q0) := shortest_from 17 1 m e k in
  let '(d, q) := strip_zeros 20 d0 q0 in
  let ds := digits_of_N (Z.to_N d) in
  (ds, q + Z.of_nat (String.length ds)).

Fixpoint zeros (n : nat) : string :=
  match n with
  | O => ""
  | S n' => String "0" (zeros n')
  end.

Definition str_take (n : nat) (s : string) : string := substring 0 n s.
Definition str_drop (n : nat) (s : string) : string :=
  substring n (String.length s - n) s.

(** Layout of [repr]: scientific notation when the decimal point lies more
    than 16 places right or more than 3 places left of the first digit. *)
Definition layout (ds : string) (decpt : Z) : string :=
  let nd := Z.of_nat (String.length ds) in
  if (16 <? decpt) || (decpt <? -3) then
    let ex := decpt - 1 in
    let exd := digits_of_N (Z.abs_N ex) in
    (str_take 1 ds
     ++ (if (1 <? nd)%Z then "." ++ str_drop 1 ds else "")
     ++ "e" ++ (if (ex <? 0)%Z then "-" else "+")
     ++ (if (Z.abs ex <? 10)%Z then "0" else "") ++ exd)%string
  else if decpt <=? 0 then
    ("0." ++ zeros (Z.to_nat (- decpt)) ++ ds)%string
  else if nd <=? decpt then
    (ds ++ zeros (Z.to_nat (decpt - nd)) ++ ".0")%string
  else
    (str_take (Z.to_nat decpt) ds ++ "." ++ str_drop (Z.to_nat decpt) ds)%string.

(** [str(f)] for a [float], which is [repr(f)]. *)
Definition str_float (f : float) : string :=
  match f with
  | S754_nan => "nan"
  | S754_infinity s => if s then "-inf" else "inf"
  | S754_zero s => if s then "-0.0" else "0.0"
  | S754_finite s m e =>
      let '(ds, decpt) := shortest_repr m e in
      ((if s then "-" else "") ++ layout ds decpt)%string
  end.

End PyFmt.
Import PyFmt.

(** ** [eval] on validated expressions

    The model covers the strings that [is_safe_expression] lets through:
    digits, the four operators (never two in a row, so neither [**] nor
    [//] occurs), dots, parentheses and white space.  Limits of the
    interpreter's resources (recursion depth, memory) are not modelled. *)

Module PyEval.

Inductive token : Type :=
  | TNum (v : pyval)
  | TPlus
  | TMinus
  | TStar
  | TSlash
  | TDot
  | TLPar
  | TRPar
  | TNewline.

Inductive unop : Type := UPlus | UMinus.
Inductive binop : Type := Add | Sub | Mul | Div.

(** Syntax trees.  A parenthesised group is its content; [()] is the empty
    tuple; a primary followed by parentheses is a call, without argument
    or with one argument, which may be starred. *)
Inductive expr : Type :=
  | ENum (v : pyval)
  | ETuple
  | EUn (o : unop) (e : expr)
  | EBin (o : binop) (a b : expr)
  | ECall0 (f : expr)
  | ECall1 (f : expr) (starred : bool) (arg : expr).

(** *** Lexical analysis *)

(** [eval] drops leading spaces and tabs of its argument. *)
Fixpoint lstrip_blanks (s : string) : string :=
  match s with
  | String c t =>
      if Ascii.eqb c " " || (code c =? 9)%N then lstrip_blanks t else s
  | "" => ""
  end.

(** Universal newlines: [\r\n] and [\r] become [\n]. *)
Fixpoint translate_newlines (s : string) : string :=
  match s with
  | "" => ""
  | String c t =>
      if (code c =? 13)%N then
        match t with
        | String d t' =>
            if (code d =? 10)%N then String d (translate_newlines t')
            else String (ascii_of_N 10) (translate_newlines t)
        | "" => String (ascii_of_N 10) ""
        end
      else String c (translate_newlines t)
  end.

Definition is_newline (c : ascii) : bool := (code c =? 10)%N.

(** Space, tab and form feed separate tokens within a line. *)
Definition is_blank (c : ascii) : bool :=
  Ascii.eqb c " " || (code c =? 9)%N || (code c =? 12)%N.

(** The indentation column of a line and what follows its leading blanks:
    a space counts one, a tab goes to the next multiple of eight, a form
    feed resets the column. *)
Fixpoint indentation (col : nat) (s : string) : nat * string :=
  match s with
  | String c t =>
      if Ascii.eqb c " " then indentation (S col) t
      else if (code c =? 9)%N then indentation ((col / 8 + 1) * 8)%nat t
      else if (code c =? 12)%N then indentation O t
      else (col, s)
  | "" => (col, "")
  end.

Fixpoint span_digits (s : string) : string * string :=
  match s with
  | String c t =>
      if is_ascii_digit c
      then let '(d, r) := span_digits t in (String c d, r)
      else ("", s)
  | "" => ("", "")
  end.

Definition digit_value (c : ascii) : Z := Z.of_N (code c) - 48.

Fixpoint number_of_digits (acc : Z) (s : string) : Z :=
  match s with
  | String c t => number_of_digits (10 * acc + digit_value c) t
  | "" => acc
  end.

(** An [int] literal: leading zeros are allowed only when every digit is
    zero, and a literal of more than [int_max_str_digits] digits is
    refused. *)
Definition int_literal (digits : string) : option pyval :=
  let n := number_of_digits 0 digits in
  if n =? 0 then Some (VInt 0)
  else if prefix "0" digits then None
  else if (int_max_str_digits <? String.length digits)%nat then None
  else Some (VInt n).

(** A [float] literal [ip.fp]: the float nearest to its decimal value. *)
Definition float_literal (ip fp : string) : pyval :=
  match number_of_digits 0 (ip ++ fp) with
  | Zpos d => VFloat (float_of_decimal d (- Z.of_nat (String.length fp)))
  | _ => VFloat (S754_zero false)
  end.

(** The tokenizer nests at most 200 parentheses. *)
Definition max_level : nat := 200.

(** [tokenize fuel s level atbol]: the tokens of [s], inside [level] open
    parentheses, [atbol] at the beginning of a line.  Every step but the
    one that leaves the beginning of a line consumes a character, so
    twice the length of [s] and two is enough fuel.  [None] is a syntax
    error. *)
Fixpoint tokenize (fuel : nat) (s : string) (level : nat) (atbol : bool)
  : option (list token) :=
  match fuel with
  | O => None
  | S fuel' =>
      if atbol then
        let '(col, s1) := indentation O s in
        match s1 with
        | String c t =>
            if is_newline c then tokenize fuel' t level true
            else if Nat.eqb level 0 && negb (Nat.eqb col 0) then None
            else tokenize fuel' s1 level false
        | "" =>
            if Nat.eqb level 0 && Nat.eqb col 0 then Some [] else None
        end
      else
        match s with
        | "" => if Nat.eqb level 0 then Some [] else None
        | String c t =>
            if is_blank c then tokenize fuel' t level false
            else if is_newline c then
              if Nat.eqb level 0
              then option_map (cons TNewline) (tokenize fuel' t level true)
              else tokenize fuel' t level true
            else if Ascii.eqb c "(" then
              if (max_level <=? level)%nat then None
              else option_map (cons TLPar) (tokenize fuel' t (S level) false)
            else if Ascii.eqb c ")" then
              match level with
              | O => None
              | S l => option_map (cons TRPar) (tokenize fuel' t l false)
              end
            else if Ascii.eqb c "+" then
              option_map (cons TPlus) (tokenize fuel' t level false)
            else if Ascii.eqb c "-" then
              option_map (cons TMinus) (tokenize fuel' t level false)
            else if Ascii.eqb c "*" then
              option_map (cons TStar) (tokenize fuel' t level false)
            else if Ascii.eqb c "/" then
              option_map (cons TSlash) (tokenize fuel' t level false)
            else if Ascii.eqb c "." then
              match span_digits t with
              | ("", _) => option_map (cons TDot) (tokenize fuel' t level false)
              | (fp, r) =>
                  option_map (cons (TNum (float_literal "" fp)))
                             (tokenize fuel' r level false)
              end
            else if is_ascii_digit c then
              let '(ip, r) := span_digits s in
              match r with
              | String d r' =>
                  if Ascii.eqb d "." then
                    let '(fp, r'') := span_digits r' in
                    option_map (cons (TNum (float_literal ip fp)))
                               (tokenize fuel' r'' level false)
                  else
                    match int_literal ip with
                    | Some v =>
                        option_map (cons (TNum v)) (tokenize fuel' r level false)
                    | None => None
                    end
              | "" =>
                  match int_literal ip with
                  | Some v => Some [TNum v]
                  | None => None
                  end
              end
            else None
        end
  end.

Definition tokens_of (s : string) : option (list token) :=
  let s' := translate_newlines (lstrip_blanks s) in
  tokenize (2 * String.length s' + 2) s' O true.

(** *** Syntax analysis

    The grammar of [eval] restricted to these tokens:
    [sum: sum ('+'|'-') term | term], [term: term ('*'|'/') factor | factor],
    [factor: ('+'|'-') factor | primary],
    [primary: primary '(' ['*'] [sum] ')' | atom],
    [atom: NUMBER | '(' ')' | '(' sum ')'], then newlines only.
    Each function returns the tree and the remaining tokens. *)

Definition parsed : Type := option (expr * list token).

Fixpoint parse_sum (fuel : nat) (ts : list token) : parsed :=
  match fuel with
  | O => None
  | S fuel' =>
      match parse_term fuel' ts with
      | Some (a, r) => parse_sum_rest fuel' a r
      | None => None
      end
  end

with parse_sum_rest (fuel : nat) (a : expr) (ts : list token) : parsed :=
  match fuel with
  | O => None
  | S fuel' =>
      match ts with
      | TPlus :: r =>
          match parse_term fuel' r with
          | Some (b, r') => parse_sum_rest fuel' (EBin Add a b) r'
          | None => None
          end
      | TMinus :: r =>
          match parse_term fuel' r with
          | Some (b, r') => parse_sum_rest fuel' (EBin Sub a b) r'
          | None => None
          end
      | _ => Some (a, ts)
      end
  end

with parse_term (fuel : nat) (ts : list token) : parsed :=
  match fuel with
  | O => None
  | S fuel' =>
      match parse_factor fuel' ts with
      | Some (a, r) => parse_term_rest fuel' a r
      | None => None
      end
  end

with parse_term_rest (fuel : nat) (a : expr) (ts : list token) : parsed :=
  match fuel with
  | O => None
  | S fuel' =>
      match ts with
      | TStar :: r =>
          match parse_factor fuel' r with
          | Some (b, r') => parse_term_rest fuel' (EBin Mul a b) r'
          | None => None
          end
      | TSlash :: r =>
          match parse_factor fuel' r with
          | Some (b, r') => parse_term_rest fuel' (EBin Div a b) r'
          | None => None
          end
      | _ => Some (a, ts)
      end
  end

with parse_factor (fuel : nat) (ts : list token) : parsed :=
  match fuel with
  | O => None
  | S fuel' =>
      match ts with
      | TPlus :: r =>
          match parse_factor fuel' r with
          | Some (e, r') => Some (EUn UPlus e, r')
          | None => None
          end
      | TMinus :: r =>
          match parse_factor fuel' r with
          | Some (e, r') => Some (EUn UMinus e, r')
          | None => None
          end
      | TNum v :: r => parse_trailers fuel' (ENum v) r
      | TLPar :: TRPar :: r => parse_trailers fuel' ETuple r
      | TLPar :: r =>
          match parse_sum fuel' r with
          | Some (e, TRPar :: r') => parse_trailers fuel' e r'
          | _ => None
          end
      | _ => None
      end
  end

with parse_trailers (fuel : nat) (f : expr) (ts : list token) : parsed :=
  match fuel with
  | O => None
  | S fuel' =>
      match ts with
      | TLPar :: TRPar :: r => parse_trailers fuel' (ECall0 f) r
      | TLPar :: TStar :: r =>
          match parse_sum fuel' r with
          | Some (e, TRPar :: r') => parse_trailers fuel' (ECall1 f true e) r'
          | _ => None
          end
      | TLPar :: r =>
          match parse_sum fuel' r with
          | Some (e, TRPar :: r') => parse_trailers fuel' (ECall1 f false e) r'
          | _ => None
          end
      | _ => Some (f, ts)
      end
  end.

Definition only_newlines (ts : list token) : bool :=
  forallb (fun t => match t with TNewline => true | _ => false end) ts.

(** Between two consumed tokens the parser descends through at most five
    of its functions. *)
Definition parse_fuel (ts : list token) : nat := (6 * List.length ts + 6)%nat.

Definition parse_tokens (ts : list token) : option expr :=
  match parse_sum (parse_fuel ts) ts with
  | Some (e, r) => if only_newlines r then Some e else None
  | None => None
  end.

Definition py_parse (s : string) : option expr :=
  match tokens_of s with
  | Some ts => parse_tokens ts
  | None => None
  end.

(** *** Evaluation: operands left to right, then the operation. *)

Definition eval_unop (o : unop) : pyval -> result pyval :=
  match o with
  | UPlus => py_pos
  | UMinus => py_neg
  end.

Definition eval_binop (o : binop) : pyval -> pyval -> result pyval :=
  match o with
  | Add => py_add
  | Sub => py_sub
  | Mul => py_mul
  | Div => py_truediv
  end.

Fixpoint eval_expr (e : expr) : result pyval :=
  match e with
  | ENum v => Ok v
  | ETuple => Ok VEmptyTuple
  | EUn o a => x <- eval_expr a ;; eval_unop o x
  | EBin o a b => x <- eval_expr a ;; y <- eval_expr b ;; eval_binop o x y
  | ECall0 f => _ <- eval_expr f ;; Raise TypeError
  | ECall1 f _ a => _ <- eval_expr f ;; _ <- eval_expr a ;; Raise TypeError
  end.

(** [eval(s, {"__builtins__": {}}, {})].  The recursion limit of the
    interpreter is outside the model: on an expression nested deeper than
    the limit allows, some three thousand operands in a row at the default
    setting, CPython raises [RecursionError] while compiling, where
    [py_eval] goes on to a value. *)
Definition py_eval (s : string) : result pyval :=
  match py_parse s with
  | Some e => eval_expr e
  | None => Raise SyntaxError
  end.

End PyEval.
Import PyEval.

(** ** The calculator: [CalculatorLayout] *)

(** [v in '+-*/'], for the text of a button as for one character. *)
Definition in_operators (v : string) : bool := str_in v "+-*/".

(** [str(v)]. *)
Definition py_str (v : pyval) : result string :=
  match v with
  | VInt z => str_int z
  | VFloat f => Ok (str_float f)
  | VEmptyTuple => Ok "()"
  end.

(** The three attributes that [process_input] reads and writes. *)
Record State : Type := mkState {
  display_text : string;
  last_result : pyval;
  new_expression : bool
}.

(** The class attributes: [StringProperty('0')], [NumericProperty(0)],
    [new_expression = True]. *)
Definition initial_state : State := mkState "0" (VInt 0) true.

Definition set_display_text (st : State) (text : string) : State :=
  mkState text (last_result st) (new_expression st).

(** How a method ends: it returns, or an exception leaves it; either way
    with the attributes as they then are. *)
Inductive outcome : Type :=
  | Returns (st : State)
  | Raises (e : exn) (st : State).

(** [is_safe_expression] *)
Definition is_safe_expression (expression : string) : bool :=
  if search_consecutive_operators expression then false
  else if search_multiple_dots expression then false
  else if match first_char expression with
          | Some c => str_in (char c) "+*/"
          | None => false
          end then false
  else if negb (Nat.eqb (count "(" expression) (count ")" expression)) then false
  else match_safe_pattern expression.

(** The loop [while expression and expression[-1] in '+-*/'], which runs
    at most once per character. *)
Fixpoint strip_loop (fuel : nat) (expression : string) : string :=
  match fuel with
  | O => expression
  | S fuel' =>
      match last_char expression with
      | Some c =>
          if in_operators (char c)
          then strip_loop fuel' (drop_last expression)
          else expression
      | None => expression
      end
  end.

Definition strip_trailing_operators (expression : string) : string :=
  strip_loop (String.length expression) expression.

(** The body of the [try] statement of [evaluate_expression]. *)
Definition try_body (st : State) (expression : string) : outcome :=
  if negb (is_safe_expression expression) then
    Returns (set_display_text st "Error")
  else
    match py_eval expression with
    | Raise e => Raises e st
    | Ok result =>
        if is_number result then
          if py_eq result (VFloat pos_inf) || py_eq result (VFloat neg_inf)
          then
            (* the display is set, then [formatted_result] is read unbound *)
            Raises UnboundLocalError (set_display_text st "Error")
          else
            match py_int result with
            | Raise e => Raises e st
            | Ok i =>
                match (if py_eq result (VInt i) then py_str (VInt i)
                       else py_str result) with
                | Raise e => Raises e st
                | Ok formatted_result => Returns (mkState formatted_result result true)
                end
            end
        else Returns (set_display_text st "Error")
    end.

(** The two [except] clauses. *)
Definition handle (e : exn) (st : State) : outcome :=
  if exn_isinstance e ZeroDivisionError then
    Returns (mkState "Error: Div/0" (last_result st) true)
  else if exn_isinstance e SyntaxError || exn_isinstance e NameError
          || exn_isinstance e TypeError || exn_isinstance e ValueError then
    Returns (mkState "Error" (last_result st) true)
  else Raises e st.

(** [evaluate_expression] *)
Definition evaluate_expression (st : State) : outcome :=
  let expression := strip_trailing_operators (display_text st) in
  if String.eqb expression "" then Returns (set_display_text st "0")
  else
    match try_body st expression with
    | Returns st' => Returns st'
    | Raises e st' => handle e st'
    end.

(** [process_input] *)
Definition process_input (st : State) (value : string) : outcome :=
  let current_text := display_text st in
  if new_expression st && negb (in_operators value) then
    if isdigit value || String.eqb value "."
    then Returns (mkState value (last_result st) false)
    else Returns st
  else if String.eqb value "C" then
    Returns (mkState "0" (VInt 0) true)
  else if String.eqb value "DEL" then
    if (1 <? String.length current_text)%nat
    then Returns (set_display_text st (drop_last current_text))
    else Returns (set_display_text st "0")
  else if String.eqb value "=" then
    evaluate_expression st
  else if in_operators value then
    match last_char current_text with
    | Some c =>
        if in_operators (char c)
        then Returns (mkState (drop_last current_text ++ value) (last_result st) false)
        else Returns (mkState (current_text ++ value) (last_result st) false)
    | None => Returns (mkState (current_text ++ value) (last_result st) false)
    end
  else if String.eqb current_text "0" && negb (String.eqb value ".") then
    Returns (mkState value (last_result st) false)
  else if String.eqb value "."
          && str_in "." (last (split_operators current_text) "") then
    Returns st
  else
    Returns (mkState (current_text ++ value) (last_result st) false).

(** *** The buttons *)

Inductive digit : Type := D0 | D1 | D2 | D3 | D4 | D5 | D6 | D7 | D8 | D9.
Inductive operator : Type := Plus | Minus | Times | Divide.

Inductive Token : Type :=
  | Digit (d : digit)
  | DecimalPoint
  | Operator (o : operator)
  | Clear
  | Delete
  | Equals.

Definition digit_text (d : digit) : string :=
  match d with
  | D0 => "0" | D1 => "1" | D2 => "2" | D3 => "3" | D4 => "4"
  | D5 => "5" | D6 => "6" | D7 => "7" | D8 => "8" | D9 => "9"
  end.

Definition operator_text (o : operator) : string :=
  match o with
  | Plus => "+" | Minus => "-" | Times => "*" | Divide => "/"
  end.

(** The text of the button, which [on_button_press] passes on. *)
Definition token_text (t : Token) : string :=
  match t with
  | Digit d => digit_text d
  | DecimalPoint => "."
  | Operator o => operator_text o
  | Clear => "C"
  | Delete => "DEL"
  | Equals => "="
  end.

(** The texts in [buttons] of [create_widgets], in that order. *)
Definition buttons : list string :=
  ["C"; "DEL"; "/"; "*"; "7"; "8"; "9"; "-"; "4"; "5"; "6"; "+";
   "1"; "2"; "3"; "="; "0"; "."].

Definition apply (st : State) (t : Token) : outcome :=
  process_input st (token_text t).

(** A sequence of presses; an exception that leaves [process_input] ends
    it. *)
Fixpoint run (st : State) (ts : list Token) : outcome :=
  match ts with
  | [] => Returns st
  | t :: ts' =>
      match apply st t with
      | Returns st' => run st' ts'
      | Raises e st' => Raises e st'
      end
  end.

(** The states some sequence of presses leads to from the initial one. *)
Inductive reachable : State -> Prop :=
  | reachable_initial : reachable initial_state
  | reachable_apply (st st' : State) (t : Token) :
      reachable st -> apply st t = Returns st' -> reachable st'.

(** *** Auxiliary predicates on texts *)

Definition ends_with_operator (s : string) : bool :=
  match last_char s with
  | Some c => is_operator_char c
  | None => false
  end.

Definition starts_with_operator (s : string) : bool :=
  match first_char s with
  | Some c => is_operator_char c
  | None => false
  end.

Definition operator_free (s : string) : bool :=
  all_chars (fun c => negb (is_operator_char c)) s.

(** A display as the calculator keeps it: non-empty, and without two
    adjacent operator characters. *)
Definition well_formed_text (s : string) : Prop :=
  s <> "" /\ search_consecutive_operators s = false.

(** *** Divisions by zero in an expression *)

(** The value is a zero: [0], [0.0] or [-0.0]. *)
Definition value_is_zero (v : pyval) : bool :=
  match v with
  | VInt z => z =? 0
  | VFloat f => is_zero f
  | VEmptyTuple => false
  end.

(** The dividend [x] reaches the test of the divisor [y]: both are [int]s,
    or [x] is a float, or [x] is an [int] that converts to a float. *)
Definition dividend_fits (x y : pyval) : bool :=
  match x, y with
  | VInt _, VInt _ => true
  | VInt a, _ => negb (is_inf (float_of_Z a))
  | VFloat _, _ => true
  | VEmptyTuple, _ => false
  end.

(** Some division in [e] has a divisor that evaluates to zero. *)
Inductive has_zero_divisor : expr -> Prop :=
  | zd_here (a b : expr) (y : pyval) :
      eval_expr b = Ok y -> value_is_zero y = true ->
      has_zero_divisor (EBin Div a b)
  | zd_un (o : unop) (a : expr) :
      has_zero_divisor a -> has_zero_divisor (EUn o a)
  | zd_left (o : binop) (a b : expr) :
      has_zero_divisor a -> has_zero_divisor (EBin o a b)
  | zd_right (o : binop) (a b : expr) :
      has_zero_divisor b -> has_zero_divisor (EBin o a b)
  | zd_call0 (f : expr) :
      has_zero_divisor f -> has_zero_divisor (ECall0 f)
  | zd_callee (f a : expr) (starred : bool) :
      has_zero_divisor f -> has_zero_divisor (ECall1 f starred a)
  | zd_argument (f a : expr) (starred : bool) :
      has_zero_divisor a -> has_zero_divisor (ECall1 f starred a).

(** The evaluation of [e], operands left to right, meets a division by
    zero before anything else fails. *)
Inductive fails_at_zero_division : expr -> Prop :=
  | fz_here (a b : expr) (x y : pyval) :
      eval_expr a = Ok x -> eval_expr b = Ok y ->
      value_is_zero y = true -> dividend_fits x y = true ->
      fails_at_zero_division (EBin Div a b)
  | fz_un (o : unop) (a : expr) :
      fails_at_zero_division a -> fails_at_zero_division (EUn o a)
  | fz_left (o : binop) (a b : expr) :
      fails_at_zero_division a -> fails_at_zero_division (EBin o a b)
  | fz_right (o : binop) (a b : expr) (x : pyval) :
      eval_expr a = Ok x -> fails_at_zero_division b ->
      fails_at_zero_division (EBin o a b)
  | fz_call0 (f : expr) :
      fails_at_zero_division f -> fails_at_zero_division (ECall0 f)
  | fz_callee (f a : expr) (starred : bool) :
      fails_at_zero_division f -> fails_at_zero_division (ECall1 f starred a)
  | fz_argument (f a : expr) (starred : bool) (x : pyval) :
      eval_expr f = Ok x -> fails_at_zero_division a ->
      fails_at_zero_division (ECall1 f starred a).

(** *** The grammar of section 6 of the specification

    These definitions follow the words of the specification, not the code:
    "a string composed only of the characters 0-9 . + - * / ( ) and
    whitespace, with no two operator characters adjacent, no leading +, *
    or /, balanced parentheses, and at most one . per maximal numeric run",
    a numeric run being "a maximal substring of the expression containing
    only digits and at most one decimal point". *)

Definition grammar_char (c : ascii) : bool :=
  is_ascii_digit c || Ascii.eqb c "." || is_operator_char c
  || Ascii.eqb c "(" || Ascii.eqb c ")" || re_space c.

Fixpoint adjacent_pairs (s : string) : list (ascii * ascii) :=
  match s with
  | "" => []
  | String a t =>
      match t with
      | "" => []
      | String b _ => (a, b) :: adjacent_pairs t
      end
  end.

Definition no_adjacent_operators (s : string) : bool :=
  forallb (fun p => negb (is_operator_char (fst p) && is_operator_char (snd p)))
          (adjacent_pairs s).

Definition no_leading_operator (s : string) : bool :=
  match s with
  | String c _ => negb (Ascii.eqb c "+" || Ascii.eqb c "*" || Ascii.eqb c "/")
  | "" => true
  end.

Definition balanced_parentheses (s : string) : bool :=
  Nat.eqb (count "(" s) (count ")" s).

Definition in_numeric_run (c : ascii) : bool :=
  is_ascii_digit c || Ascii.eqb c ".".

(** The maximal substrings of digits and dots, [run] being the one under
    way. *)
Fixpoint numeric_runs_from (run s : string) : list string :=
  match s with
  | "" => [run]
  | String c t =>
      if in_numeric_run c then numeric_runs_from (run ++ char c) t
      else run :: numeric_runs_from "" t
  end.

Definition numeric_runs (s : string) : list string := numeric_runs_from "" s.

Definition one_dot_per_run (s : string) : bool :=
  forallb (fun r => (count "." r <=? 1)%nat) (numeric_runs s).

Definition conforms_to_grammar (s : string) : bool :=
  all_chars grammar_char s && no_adjacent_operators s
  && no_leading_operator s && balanced_parentheses s && one_dot_per_run s.

(** No pair of operators and no operator in front. *)
Definition tame (s : string) : Prop :=
  search_consecutive_operators s = false /\ starts_with_operator s = false.

Local Open Scope list_scope.
Local Open Scope nat_scope.

(** *** Expressions as token sequences

    [unparse l e] writes the tree [e] where the grammar expects level [l]
    (0 a sum, 1 a term, 2 a factor, 3 a primary), in parentheses when [e]
    is of a lower level. *)

Definition level_of (e : expr) : nat :=
  match e with
  | EBin Add _ _ | EBin Sub _ _ => 0
  | EBin Mul _ _ | EBin Div _ _ => 1
  | EUn _ _ => 2
  | _ => 3
  end.

Definition unop_token (o : unop) : token :=
  match o with UPlus => TPlus | UMinus => TMinus end.

Definition binop_token (o : binop) : token :=
  match o with Add => TPlus | Sub => TMinus | Mul => TStar | Div => TSlash end.

Definition binop_level (o : binop) : nat :=
  match o with Add | Sub => 0 | Mul | Div => 1 end.

Fixpoint unparse (lvl : nat) (e : expr) : list token :=
  let body :=
    match e with
    | ENum v => [TNum v]
    | ETuple => [TLPar; TRPar]
    | EUn o a => unop_token o :: unparse 2 a
    | EBin o a b =>
        unparse (binop_level o) a ++ binop_token o :: unparse (S (binop_level o)) b
    | ECall0 f => unparse 3 f ++ [TLPar; TRPar]
    | ECall1 f starred a =>
        unparse 3 f ++ TLPar :: (if starred then [TStar] else [])
        ++ unparse 0 a ++ [TRPar]
    end in
  if level_of e <? lvl then TLPar :: body ++ [TRPar] else body.

Definition mono_at (n : nat) : Prop :=
  (forall ts r, parse_sum n ts = Some r -> parse_sum (S n) ts = Some r) /\
  (forall a ts r, parse_sum_rest n a ts = Some r -> parse_sum_rest (S n) a ts = Some r) /\
  (forall ts r, parse_term n ts = Some r -> parse_term (S n) ts = Some r) /\
  (forall a ts r, parse_term_rest n a ts = Some r -> parse_term_rest (S n) a ts = Some r) /\
  (forall ts r, parse_factor n ts = Some r -> parse_factor (S n) ts = Some r) /\
  (forall f ts r, parse_trailers n f ts = Some r -> parse_trailers (S n) f ts = Some r).

(** What may follow an operand without being taken for its continuation. *)
Definition no_trailer (ts : list token) : Prop :=
  match ts with
  | TLPar :: _ => False
  | _ => True
  end.

Definition no_factor_operator (ts : list token) : Prop :=
  match ts with
  | TLPar :: _ | TStar :: _ | TSlash :: _ => False
  | _ => True
  end.

Definition starts_operand (ts : list token) : Prop :=
  match ts with
  | TNum _ :: _ | TLPar :: _ | TPlus :: _ | TMinus :: _ => True
  | _ => False
  end.

(** The fuel that parsing [unparse l e] takes, beyond that of what
    follows. *)
Definition fuel_of (l : nat) (e : expr) : nat := (6 * List.length (unparse l e) - l)%nat.

Definition primary_ok (e : expr) : Prop :=
  forall rest k res fuel,
    parse_trailers k e rest = Some res -> (k + fuel_of 3 e <= fuel)%nat ->
    parse_factor fuel (unparse 3 e ++ rest) = Some res.

Definition factor_ok (e : expr) : Prop :=
  forall rest fuel,
    no_trailer rest -> (1 + fuel_of 2 e <= fuel)%nat ->
    parse_factor fuel (unparse 2 e ++ rest) = Some (e, rest).

Definition term_ok (e : expr) : Prop :=
  forall rest k res fuel,
    no_trailer rest ->
    parse_term_rest k e rest = Some res -> (k + fuel_of 1 e <= fuel)%nat ->
    parse_term fuel (unparse 1 e ++ rest) = Some res.

Definition sum_ok (e : expr) : Prop :=
  forall rest k res fuel,
    no_factor_operator rest ->
    parse_sum_rest k e rest = Some res -> (k + fuel_of 0 e <= fuel)%nat ->
    parse_sum fuel (unparse 0 e ++ rest) = Some res.

Definition all_ok (e : expr) : Prop :=
  primary_ok e /\ factor_ok e /\ term_ok e /\ sum_ok e.

Local Open Scope string_scope.
Local Open Scope Z_scope.

(** *** Decimal points in a text *)

(** The text has no dot. *)
Definition dot_free (s : string) : bool :=
  all_chars (fun c => negb (Ascii.eqb c ".")) s.

(** The digits that [s] begins with are followed by a dot. *)
Definition dot_after_digits (s : string) : bool :=
  match skip_digits s with
  | String d _ => Ascii.eqb d "."
  | "" => false
  end.

(** The text ends with a dot and the digits after it. *)
Fixpoint ends_in_dot_digits (s : string) : bool :=
  match s with
  | "" => false
  | String c t =>
      Ascii.eqb c "." && all_chars is_ascii_digit t || ends_in_dot_digits t
  end.

(** At most one dot. *)
Definition one_dot (s : string) : Prop :=
  dot_free s = true \/
  exists a b, s = (a ++ String "." b)%string /\ dot_free a = true /\ dot_free b = true.

(** *** The result as stored and shown *)

(** An [int], or a float that is neither infinite nor a NaN. *)
Definition is_finite_number (v : pyval) : bool :=
  match v with
  | VInt _ => true
  | VFloat (S754_zero _) | VFloat (S754_finite _ _ _) => true
  | _ => false
  end.

(** The text that [evaluate_expression] shows for [result]: [str(int(result))]
    when [result == int(result)], else [str(result)]. *)
Definition format_result (v : pyval) : result string :=
  match py_int v with
  | Ok i => if py_eq v (VInt i) then py_str (VInt i) else py_str v
  | Raise e => Raise e
  end.

(** *** Sequences of digits *)

(** The digits written one after the other. *)
Fixpoint digits_text (ds : list digit) : string :=
  match ds with
  | [] => ""
  | d :: r => (digit_text d ++ digits_text r)%string
  end.

(** The digits without their leading zeros, the last digit kept. *)
Fixpoint drop_leading_zeros (ds : list digit) : list digit :=
  match ds with
  | D0 :: r => match r with [] => ds | _ :: _ => drop_leading_zeros r end
  | _ => ds
  end.

(** The number that a digit button stands for. *)
Definition digit_number (d : digit) : Z :=
  match d with
  | D0 => 0 | D1 => 1 | D2 => 2 | D3 => 3 | D4 => 4
  | D5 => 5 | D6 => 6 | D7 => 7 | D8 => 8 | D9 => 9
  end.

(** The number that the digits write in base ten. *)
Definition digits_value (ds : list digit) : Z :=
  fold_left (fun acc d => 10 * acc + digit_number d) ds 0.

(** The digits as a decimal numeral of the standard library. *)
Fixpoint uint_of_digits (ds : list digit) : uint :=
  match ds with
  | [] => Nil
  | d :: r =>
      let u := uint_of_digits r in
      match d with
      | D0 => Decimal.D0 u | D1 => Decimal.D1 u | D2 => Decimal.D2 u
      | D3 => Decimal.D3 u | D4 => Decimal.D4 u | D5 => Decimal.D5 u
      | D6 => Decimal.D6 u | D7 => Decimal.D7 u | D8 => Decimal.D8 u
      | D9 => Decimal.D9 u
      end
  end.

(** * Properties *)

(** ** Strings *)

Lemma is_operator_char_cases (c : ascii) :
  is_operator_char c = true ->
  c = "+"%char \/ c = "-"%char \/ c = "*"%char \/ c = "/"%char.
Proof.
  unfold is_operator_char. intro H.
  repeat (apply orb_true_iff in H; destruct H as [H | H]);
    apply Ascii.eqb_eq in H; auto.
Qed.

Lemma prefix_char (c d : ascii) (s : string) :
  prefix (char c) (String d s) = Ascii.eqb c d.
Proof.
  unfold char. simpl. destruct (ascii_dec c d) as [-> | Hne].
  - rewrite Ascii.eqb_refl. now destruct s.
  - symmetry. now apply Ascii.eqb_neq.
Qed.

(** [c in '+-*/'] on a one-character string tests the character. *)
Lemma in_operators_char (c : ascii) :
  in_operators (char c) = is_operator_char c.
Proof.
  unfold in_operators, is_operator_char.
  cbn [str_in]. rewrite !prefix_char.
  unfold char. cbn [prefix]. now rewrite !orb_false_r, !orb_assoc.
Qed.

Lemma in_operators_operator_text (o : operator) :
  in_operators (operator_text o) = true.
Proof. destruct o; reflexivity. Qed.

Lemma operator_text_char (o : operator) :
  exists c, operator_text o = char c /\ is_operator_char c = true.
Proof. destruct o; eexists; split; reflexivity. Qed.

(** Every token is the text of a button, and every button is a token. *)
Lemma token_text_buttons (s : string) :
  In s buttons <-> exists t, token_text t = s.
Proof.
  split.
  - unfold buttons. simpl. intro H.
    repeat (destruct H as [<- | H];
            [ first [ now exists Clear | now exists Delete | now exists Equals
                    | now exists DecimalPoint
                    | now exists (Operator Plus) | now exists (Operator Minus)
                    | now exists (Operator Times) | now exists (Operator Divide)
                    | now exists (Digit D0) | now exists (Digit D1)
                    | now exists (Digit D2) | now exists (Digit D3)
                    | now exists (Digit D4) | now exists (Digit D5)
                    | now exists (Digit D6) | now exists (Digit D7)
                    | now exists (Digit D8) | now exists (Digit D9) ] | ]).
    contradiction.
  - intros [t <-]. destruct t as [d | | o | | | ];
      [destruct d | | destruct o | | | ]; simpl; tauto.
Qed.

(** ** The fresh-start guard *)

(** C10.  When [new_expression] is set, the Clear, Delete and Equals buttons
    return from [process_input] with the three attributes as they were. *)
Theorem fresh_ignores_clear_delete_equals (st : State) :
  new_expression st = true ->
  apply st Clear = Returns st /\
  apply st Delete = Returns st /\
  apply st Equals = Returns st.
Proof.
  intro H. unfold apply, process_input. rewrite H. simpl. auto.
Qed.

Lemma fresh_ignores_clear_delete_equals_witness :
  new_expression (mkState "42" (VInt 42) true) = true /\
  apply (mkState "42" (VInt 42) true) Clear = Returns (mkState "42" (VInt 42) true) /\
  apply (mkState "42" (VInt 42) true) Delete = Returns (mkState "42" (VInt 42) true) /\
  apply (mkState "42" (VInt 42) true) Equals = Returns (mkState "42" (VInt 42) true).
Proof.
  split; [reflexivity | ].
  apply (fresh_ignores_clear_delete_equals (mkState "42" (VInt 42) true)).
  reflexivity.
Defined.

(** C1, at the input where the code departs from it: after [5 =] the
    display shows the result and [new_expression] is set; the Clear button
    then leaves the display at ["5"] and [last_result] at 5.  While
    [new_expression] is unset, Clear does reset the three attributes. *)
Theorem clear_after_result_is_ignored :
  run initial_state [Digit D5; Equals] = Returns (mkState "5" (VInt 5) true) /\
  run initial_state [Digit D5; Equals; Clear] = Returns (mkState "5" (VInt 5) true) /\
  (forall st : State,
     new_expression st = false ->
     apply st Clear = Returns (mkState "0" (VInt 0) true)).
Proof.
  split; [vm_compute; reflexivity | ].
  split; [vm_compute; reflexivity | ].
  intros st H. unfold apply, process_input. now rewrite H.
Qed.

(** ** The malformed examples *)

(** C9.  With ["3..5"], ["5**3"] or ["(2+3"] on the display, the validation
    rejects the expression and the evaluation shows ["Error"]. *)
Theorem malformed_examples_show_error (lr : pyval) (ne : bool) :
  (is_safe_expression "3..5" = false /\
   evaluate_expression (mkState "3..5" lr ne) = Returns (mkState "Error" lr ne)) /\
  (is_safe_expression "5**3" = false /\
   evaluate_expression (mkState "5**3" lr ne) = Returns (mkState "Error" lr ne)) /\
  (is_safe_expression "(2+3" = false /\
   evaluate_expression (mkState "(2+3" lr ne) = Returns (mkState "Error" lr ne)).
Proof. repeat split. Qed.

(** ** Failures of the evaluation *)

(** An exception that an [except] clause catches leaves an error marker on
    the display and sets [new_expression]. *)
Lemma handle_sets_flag (e : exn) (st st' : State) :
  handle e st = Returns st' ->
  new_expression st' = true /\
  (display_text st' = "Error" \/ display_text st' = "Error: Div/0").
Proof.
  unfold handle.
  destruct (exn_isinstance e ZeroDivisionError); [intros [= <-]; cbn; auto | ].
  destruct (exn_isinstance e SyntaxError || exn_isinstance e NameError
            || exn_isinstance e TypeError || exn_isinstance e ValueError);
    [intros [= <-]; cbn; auto | discriminate].
Qed.

(** C4, at the input where the code departs from it: [. =] shows ["Error"]
    with [new_expression] set, [+] appends to it, and the next [=] fails in
    the validation, which shows ["Error"] but leaves [new_expression]
    unset, so that the digit pressed next is appended.  The [except]
    clauses, for their part, set the flag whenever they show a marker. *)
Theorem validation_error_leaves_flag_unset :
  run initial_state [DecimalPoint; Equals; Operator Plus]
    = Returns (mkState "Error+" (VInt 0) false) /\
  run initial_state [DecimalPoint; Equals; Operator Plus; Equals]
    = Returns (mkState "Error" (VInt 0) false) /\
  run initial_state [DecimalPoint; Equals; Operator Plus; Equals; Digit D7]
    = Returns (mkState "Error7" (VInt 0) false) /\
  (forall (e : exn) (st st' : State),
     handle e st = Returns st' ->
     new_expression st' = true /\
     (display_text st' = "Error" \/ display_text st' = "Error: Div/0")).
Proof.
  split; [vm_compute; reflexivity | ].
  split; [vm_compute; reflexivity | ].
  split; [vm_compute; reflexivity | exact handle_sets_flag].
Qed.


(** ** Lemmas on [drop_last], [last_char] and the operator search *)

Lemma app_empty_r (s : string) : (s ++ "")%string = s.
Proof. induction s as [| c s IH]; simpl; congruence. Qed.

Lemma app_assoc_str (a b c : string) :
  ((a ++ b) ++ c)%string = (a ++ (b ++ c))%string.
Proof. induction a as [| x a IH]; simpl; congruence. Qed.

Lemma length_app_str (a b : string) :
  String.length (a ++ b) = (String.length a + String.length b)%nat.
Proof. induction a as [| x a IH]; simpl; congruence. Qed.

Lemma drop_last_app_char (s : string) (c : ascii) :
  drop_last (s ++ char c) = s.
Proof.
  induction s as [| a s IH]; [reflexivity | ].
  simpl. destruct s as [| b s]; simpl in *; congruence.
Qed.

Lemma last_char_app_char (s : string) (c : ascii) :
  last_char (s ++ char c) = Some c.
Proof.
  induction s as [| a s IH]; [reflexivity | ].
  simpl. destruct s as [| b s]; simpl in *; congruence.
Qed.

Lemma last_char_split (s : string) (c : ascii) :
  last_char s = Some c -> s = (drop_last s ++ char c)%string.
Proof.
  induction s as [| a s IH]; [discriminate | ].
  destruct s as [| b s]; simpl.
  - intros [= ->]. reflexivity.
  - intro H. f_equal. now apply IH.
Qed.

Lemma last_char_none (s : string) : last_char s = None -> s = "".
Proof.
  induction s as [| a s IH]; [reflexivity | ].
  destruct s as [| b s]; simpl; [discriminate | ].
  intro H. apply IH in H. discriminate.
Qed.

Lemma length_drop_last (s : string) :
  String.length (drop_last s) = Nat.pred (String.length s).
Proof.
  induction s as [| a s IH]; [reflexivity | ].
  destruct s as [| b s]; [reflexivity | ].
  change (drop_last (String a (String b s))) with (String a (drop_last (String b s))).
  cbn [String.length]. rewrite IH. reflexivity.
Qed.

Lemma length_zero_empty (s : string) : String.length s = O -> s = "".
Proof. destruct s; [reflexivity | discriminate]. Qed.

(** An operator in front matters by what follows it. *)
Lemma search_consecutive_cons (c : ascii) (s : string) :
  search_consecutive_operators (String c s) =
  is_operator_char c && starts_with_operator s
  || search_consecutive_operators s.
Proof.
  destruct s as [| b s]; [ | reflexivity].
  simpl. unfold starts_with_operator. simpl. now rewrite andb_false_r.
Qed.

(** Appending a character creates a pair of operators exactly when an
    operator is appended after an operator. *)
Lemma search_consecutive_app_char (s : string) (c : ascii) :
  search_consecutive_operators (s ++ char c) =
  search_consecutive_operators s || ends_with_operator s && is_operator_char c.
Proof.
  induction s as [| a s IH]; [reflexivity | ].
  change ((String a s ++ char c)%string) with (String a (s ++ char c)).
  rewrite !search_consecutive_cons, IH.
  destruct s as [| b s].
  - unfold starts_with_operator, ends_with_operator. simpl.
    destruct (is_operator_char a), (is_operator_char c); reflexivity.
  - change (starts_with_operator (String b s ++ char c))
      with (starts_with_operator (String b s)).
    change (ends_with_operator (String a (String b s)))
      with (ends_with_operator (String b s)).
    now rewrite orb_assoc.
Qed.

Lemma search_consecutive_split (s : string) (c : ascii) :
  last_char s = Some c ->
  search_consecutive_operators s =
  search_consecutive_operators (drop_last s)
  || ends_with_operator (drop_last s) && is_operator_char c.
Proof.
  intro H. rewrite (last_char_split s c H) at 1.
  apply search_consecutive_app_char.
Qed.

Lemma search_consecutive_drop_last (s : string) :
  search_consecutive_operators s = false ->
  search_consecutive_operators (drop_last s) = false.
Proof.
  destruct (last_char s) as [c | ] eqn:E.
  - rewrite (search_consecutive_split s c E).
    intro H. now apply orb_false_iff in H.
  - apply last_char_none in E. now subst.
Qed.

(** Replacing a trailing operator, in a text without a pair, gives a text
    without a pair. *)
Lemma search_consecutive_replace (s : string) (c d : ascii) :
  search_consecutive_operators s = false ->
  last_char s = Some c -> is_operator_char c = true ->
  search_consecutive_operators (drop_last s ++ char d) = false.
Proof.
  intros Hs Hl Hc.
  rewrite (search_consecutive_split s c Hl), Hc, andb_true_r in Hs.
  apply orb_false_iff in Hs. destruct Hs as [H1 H2].
  now rewrite search_consecutive_app_char, H1, H2.
Qed.

Lemma operator_free_consecutive (s : string) :
  operator_free s = true -> search_consecutive_operators s = false.
Proof.
  induction s as [| a s IH]; [reflexivity | ].
  unfold operator_free. cbn [all_chars]. intro H.
  apply andb_true_iff in H. destruct H as [Ha Hs].
  destruct s as [| b s]; [reflexivity | ].
  cbn [search_consecutive_operators].
  apply negb_true_iff in Ha. rewrite Ha. simpl. now apply IH.
Qed.

Lemma operator_free_app (a b : string) :
  operator_free (a ++ b) = operator_free a && operator_free b.
Proof.
  unfold operator_free.
  induction a as [| x a IH]; [reflexivity | ].
  simpl. now rewrite IH, andb_assoc.
Qed.

(** A text free of operators put in front does not matter. *)
Lemma search_consecutive_app_free (a b : string) :
  operator_free a = true ->
  search_consecutive_operators (a ++ b) = search_consecutive_operators b.
Proof.
  induction a as [| x a IH]; [reflexivity | ].
  unfold operator_free. cbn [all_chars]. intro H.
  apply andb_true_iff in H. destruct H as [Hx Ha].
  apply negb_true_iff in Hx.
  change ((String x a ++ b)%string) with (String x (a ++ b)).
  rewrite search_consecutive_cons, Hx. now apply IH.
Qed.

Lemma operator_free_starts (s : string) :
  operator_free s = true -> starts_with_operator s = false.
Proof.
  destruct s as [| c s]; [reflexivity | ].
  unfold operator_free, starts_with_operator. simpl.
  intro H. apply andb_true_iff in H. destruct H as [H _].
  now apply negb_true_iff.
Qed.

(** ** The texts that [str] produces *)

Lemma all_chars_impl (p q : ascii -> bool) (s : string) :
  (forall c, p c = true -> q c = true) ->
  all_chars p s = true -> all_chars q s = true.
Proof.
  intro Hpq. induction s as [| c s IH]; [reflexivity | ].
  simpl. intro H. apply andb_true_iff in H. destruct H as [Hc Hs].
  now rewrite (Hpq c Hc), IH.
Qed.

Lemma all_chars_app (p : ascii -> bool) (a b : string) :
  all_chars p (a ++ b) = all_chars p a && all_chars p b.
Proof.
  induction a as [| x a IH]; [reflexivity | ].
  simpl. now rewrite IH, andb_assoc.
Qed.

Lemma all_chars_substring (p : ascii -> bool) (s : string) (n m : nat) :
  all_chars p s = true -> all_chars p (substring n m s) = true.
Proof.
  revert n m. induction s as [| c s IH]; intros n m H.
  - destruct n, m; reflexivity.
  - simpl in H. apply andb_true_iff in H. destruct H as [Hc Hs].
    destruct n as [| n]; [destruct m as [| m] | ]; simpl.
    + reflexivity.
    + now rewrite Hc, IH.
    + now apply IH.
Qed.

Lemma all_chars_zeros (p : ascii -> bool) (n : nat) :
  p "0"%char = true -> all_chars p (zeros n) = true.
Proof. intro H. induction n as [| n IH]; simpl; [ | rewrite H]; auto. Qed.

Lemma digits_nil_empty (d : uint) :
  all_chars is_ascii_digit (NilEmpty.string_of_uint d) = true.
Proof. induction d; simpl; auto. Qed.

Lemma digits_of_N_digits (n : N) :
  all_chars is_ascii_digit (digits_of_N n) = true.
Proof.
  unfold digits_of_N, NilZero.string_of_uint.
  destruct (N.to_uint n); try reflexivity; apply digits_nil_empty.
Qed.

Lemma digits_of_N_nonempty (n : N) : digits_of_N n <> "".
Proof.
  unfold digits_of_N, NilZero.string_of_uint.
  destruct (N.to_uint n); simpl; discriminate.
Qed.

Lemma digit_not_operator (c : ascii) :
  is_ascii_digit c = true -> negb (is_operator_char c) = true.
Proof.
  intro H. apply negb_true_iff.
  destruct (is_operator_char c) eqn:E; [ | reflexivity].
  apply is_operator_char_cases in E.
  destruct E as [-> | [-> | [-> | ->]]]; discriminate.
Qed.

Lemma digit_not_dot (c : ascii) :
  is_ascii_digit c = true -> negb (Ascii.eqb c ".") = true.
Proof.
  intro H. apply negb_true_iff.
  destruct (Ascii.eqb c ".") eqn:E; [ | reflexivity].
  apply Ascii.eqb_eq in E. subst. discriminate.
Qed.

Lemma digits_operator_free (s : string) :
  all_chars is_ascii_digit s = true -> operator_free s = true.
Proof. apply all_chars_impl, digit_not_operator. Qed.

Lemma tame_free (s : string) : operator_free s = true -> tame s.
Proof.
  intro H. split;
    [now apply operator_free_consecutive | now apply operator_free_starts].
Qed.

Lemma tame_app_free (a b : string) :
  operator_free a = true -> tame b -> tame (a ++ b).
Proof.
  intros Ha [Hb1 Hb2]. split.
  - now rewrite search_consecutive_app_free.
  - destruct a as [| x a]; [exact Hb2 | ].
    unfold operator_free in Ha. simpl in Ha.
    apply andb_true_iff in Ha. destruct Ha as [Hx _].
    unfold starts_with_operator. simpl. now apply negb_true_iff.
Qed.

(** One operator, between a character that is none and a text free of
    them: the exponent of a float. *)
Lemma tame_exponent (c sign : ascii) (w : string) :
  is_operator_char c = false -> operator_free w = true ->
  tame (String c (String sign w)).
Proof.
  intros Hc Hw. split.
  - rewrite !search_consecutive_cons, Hc.
    rewrite (operator_free_starts w Hw), (operator_free_consecutive w Hw).
    now rewrite andb_false_r.
  - unfold starts_with_operator. simpl. exact Hc.
Qed.

(** A minus sign in front of a tame text leaves no pair. *)
Lemma tame_signed (sign : bool) (s : string) :
  tame s ->
  search_consecutive_operators ((if sign then "-" else "") ++ s) = false.
Proof.
  intros [H1 H2]. destruct sign; [ | exact H1].
  change ("-" ++ s)%string with (String "-" s).
  now rewrite search_consecutive_cons, H1, H2.
Qed.

Lemma int_text_consecutive (z : Z) :
  search_consecutive_operators (int_text z) = false.
Proof.
  unfold int_text. apply tame_signed, tame_free, digits_operator_free.
  apply digits_of_N_digits.
Qed.

Lemma int_text_nonempty (z : Z) : int_text z <> "".
Proof.
  unfold int_text, int_digits. destruct (z <? 0); simpl; [discriminate | ].
  apply digits_of_N_nonempty.
Qed.

(** The text of an integer has no decimal point. *)
Lemma int_text_no_dot (z : Z) : str_in "." (int_text z) = false.
Proof.
  assert (G : forall s, all_chars (fun c => negb (Ascii.eqb c ".")) s = true ->
                        str_in "." s = false).
  { induction s as [| c s IH]; [reflexivity | ].
    cbn [all_chars str_in]. intro H.
    apply andb_true_iff in H. destruct H as [Hc Hs].
    apply negb_true_iff in Hc. rewrite (IH Hs), orb_false_r.
    change "."%string with (char ".") at 1. rewrite prefix_char.
    destruct (Ascii.eqb "." c) eqn:E; [ | reflexivity].
    apply Ascii.eqb_eq in E. subst c. discriminate. }
  apply G. unfold int_text. rewrite all_chars_app.
  apply andb_true_iff. split.
  - now destruct (z <? 0).
  - apply (all_chars_impl is_ascii_digit); [apply digit_not_dot | ].
    apply digits_of_N_digits.
Qed.

Lemma layout_tame (ds : string) (decpt : Z) :
  all_chars is_ascii_digit ds = true -> tame (layout ds decpt).
Proof.
  intro Hd. pose proof (digits_operator_free ds Hd) as Hf.
  assert (Ht : forall n, operator_free (str_take n ds) = true).
  { intro n. apply all_chars_substring, Hf. }
  assert (Hr : forall n, operator_free (str_drop n ds) = true).
  { intro n. apply all_chars_substring, Hf. }
  unfold layout.
  destruct ((16 <? decpt) || (decpt <? -3)).
  - apply tame_app_free; [apply Ht | ].
    apply tame_app_free.
    { destruct (1 <? Z.of_nat (String.length ds)); [ | reflexivity].
      rewrite operator_free_app. now rewrite Hr. }
    change ("e" ++ ?x)%string with (String "e" x).
    assert (Hw : operator_free
                   ((if Z.abs (decpt - 1) <? 10 then "0" else "")
                    ++ digits_of_N (Z.abs_N (decpt - 1))) = true).
    { rewrite operator_free_app.
      rewrite (digits_operator_free _ (digits_of_N_digits _)).
      now destruct (Z.abs (decpt - 1) <? 10). }
    destruct (decpt - 1 <? 0);
      (apply tame_exponent; [reflexivity | exact Hw]).
  - destruct (decpt <=? 0); [ | destruct (Z.of_nat (String.length ds) <=? decpt)];
      apply tame_free; rewrite !operator_free_app.
    + rewrite Hf, andb_true_r. simpl.
      apply all_chars_zeros. reflexivity.
    + rewrite Hf. simpl. rewrite andb_true_r.
      apply all_chars_zeros. reflexivity.
    + now rewrite Ht, Hr.
Qed.

Lemma layout_nonempty (ds : string) (decpt : Z) : layout ds decpt <> "".
Proof.
  assert (G : forall s, (0 < String.length s)%nat -> s <> "").
  { intros s H ->. simpl in H. lia. }
  apply G. unfold layout.
  destruct ((16 <? decpt) || (decpt <? -3));
    [ | destruct (decpt <=? 0);
        [ | destruct (Z.of_nat (String.length ds) <=? decpt)]];
    rewrite ?length_app_str; simpl; lia.
Qed.

Lemma shortest_repr_digits (m : positive) (e : Z) :
  all_chars is_ascii_digit (fst (shortest_repr m e)) = true.
Proof.
  unfold shortest_repr.
  destruct (shortest_from _ _ _ _ _) as [d0 q0].
  destruct (strip_zeros _ _ _) as [d q]. simpl.
  apply digits_of_N_digits.
Qed.

Lemma str_float_consecutive (f : float) :
  search_consecutive_operators (str_float f) = false.
Proof.
  destruct f as [s | s | | s m e]; try (destruct s; reflexivity);
    try reflexivity.
  unfold str_float. pose proof (shortest_repr_digits m e) as H.
  destruct (shortest_repr m e) as [ds decpt]. simpl in H.
  apply tame_signed, layout_tame, H.
Qed.

Lemma str_float_nonempty (f : float) : str_float f <> "".
Proof.
  destruct f as [s | s | | s m e]; try (destruct s; discriminate);
    try discriminate.
  unfold str_float. destruct (shortest_repr m e) as [ds decpt].
  pose proof (layout_nonempty ds decpt) as H.
  destruct s; simpl; [discriminate | exact H].
Qed.

(** ** What each button does *)

Lemma process_digit (st : State) (d : digit) :
  apply st (Digit d) =
  Returns (mkState
             (if new_expression st || String.eqb (display_text st) "0"
              then digit_text d
              else display_text st ++ digit_text d)
             (last_result st) false).
Proof.
  unfold apply, process_input.
  destruct d; cbn; destruct (new_expression st); cbn;
    destruct (String.eqb (display_text st) "0"); reflexivity.
Qed.

Lemma process_decimal_point (st : State) :
  apply st DecimalPoint =
  Returns (if new_expression st then mkState "." (last_result st) false
           else if str_in "." (last (split_operators (display_text st)) "")
                then st
                else mkState (display_text st ++ ".") (last_result st) false).
Proof.
  unfold apply, process_input. cbn.
  destruct (new_expression st); cbn; [reflexivity | ].
  rewrite andb_false_r.
  now destruct (str_in "." (last (split_operators (display_text st)) "")).
Qed.

Lemma process_operator (st : State) (o : operator) :
  apply st (Operator o) =
  Returns (mkState
             ((if ends_with_operator (display_text st)
               then drop_last (display_text st)
               else display_text st) ++ operator_text o)
             (last_result st) false).
Proof.
  unfold apply, process_input, ends_with_operator.
  cbn [token_text]. rewrite in_operators_operator_text, andb_false_r.
  replace (String.eqb (operator_text o) "C") with false by now destruct o.
  replace (String.eqb (operator_text o) "DEL") with false by now destruct o.
  replace (String.eqb (operator_text o) "=") with false by now destruct o.
  destruct (last_char (display_text st)) as [c | ]; [ | reflexivity].
  rewrite in_operators_char. now destruct (is_operator_char c).
Qed.

Lemma process_clear (st : State) :
  apply st Clear =
  Returns (if new_expression st then st else mkState "0" (VInt 0) true).
Proof.
  unfold apply, process_input. cbn. now destruct (new_expression st).
Qed.

Lemma process_delete (st : State) :
  apply st Delete =
  Returns (if new_expression st then st
           else set_display_text st
                  (if (1 <? String.length (display_text st))%nat
                   then drop_last (display_text st) else "0")).
Proof.
  unfold apply, process_input. cbn. destruct (new_expression st); cbn;
    [reflexivity | ].
  now destruct (String.length (display_text st)) as [| [| n]].
Qed.

Lemma process_equals (st : State) :
  apply st Equals =
  if new_expression st then Returns st else evaluate_expression st.
Proof.
  unfold apply, process_input. cbn. now destruct (new_expression st).
Qed.

(** ** The shape of the display *)

Lemma well_formed_int_text (z : Z) : well_formed_text (int_text z).
Proof. split; [apply int_text_nonempty | apply int_text_consecutive]. Qed.

Lemma well_formed_str_float (f : float) : well_formed_text (str_float f).
Proof. split; [apply str_float_nonempty | apply str_float_consecutive]. Qed.

Lemma str_int_text (z : Z) (s : string) : str_int z = Ok s -> s = int_text z.
Proof.
  unfold str_int.
  destruct (int_max_str_digits <? String.length (int_digits z))%nat;
    [discriminate | now intros [= <-]].
Qed.

Lemma py_str_well_formed (v : pyval) (s : string) :
  is_number v = true -> py_str v = Ok s -> well_formed_text s.
Proof.
  destruct v as [z | f | ]; simpl; intros Hn H; [ | | discriminate].
  - apply str_int_text in H. subst. apply well_formed_int_text.
  - injection H as <-. apply well_formed_str_float.
Qed.

Lemma handle_well_formed (e : exn) (st st' : State) :
  handle e st = Returns st' -> well_formed_text (display_text st').
Proof.
  unfold handle.
  destruct (exn_isinstance e ZeroDivisionError);
    [intros [= <-]; split; [discriminate | reflexivity] | ].
  destruct (exn_isinstance e SyntaxError || exn_isinstance e NameError
            || exn_isinstance e TypeError || exn_isinstance e ValueError);
    [intros [= <-]; split; [discriminate | reflexivity] | discriminate].
Qed.

(** Whatever [evaluate_expression] leaves on the display when it returns is
    a non-empty text without two adjacent operators. *)
Lemma evaluate_expression_well_formed (st st' : State) :
  evaluate_expression st = Returns st' -> well_formed_text (display_text st').
Proof.
  unfold evaluate_expression.
  destruct (String.eqb (strip_trailing_operators (display_text st)) "");
    [intros [= <-]; split; [discriminate | reflexivity] | ].
  unfold try_body.
  destruct (is_safe_expression _); cbn [negb];
    [ | intros [= <-]; split; [discriminate | reflexivity]].
  destruct (py_eval _) as [result | e]; [ | apply handle_well_formed].
  destruct (is_number result) eqn:Hn;
    [ | intros [= <-]; split; [discriminate | reflexivity]].
  destruct (py_eq result (VFloat pos_inf) || py_eq result (VFloat neg_inf));
    [apply handle_well_formed | ].
  destruct (py_int result) as [i | e]; [ | apply handle_well_formed].
  destruct (py_eq result (VInt i)).
  - destruct (py_str (VInt i)) as [s | e] eqn:Hs; [ | apply handle_well_formed].
    intros [= <-]. now apply (py_str_well_formed (VInt i)).
  - destruct (py_str result) as [s | e] eqn:Hs; [ | apply handle_well_formed].
    intros [= <-]. now apply (py_str_well_formed result).
Qed.

Lemma drop_last_nonempty (s : string) :
  (1 < String.length s)%nat -> drop_last s <> "".
Proof.
  intros H E. apply (f_equal String.length) in E.
  rewrite length_drop_last in E. simpl in E. lia.
Qed.

Lemma app_nonempty (a b : string) : b <> "" -> (a ++ b)%string <> "".
Proof.
  intros Hb E. apply (f_equal String.length) in E.
  rewrite length_app_str in E. simpl in E.
  destruct b; [contradiction | simpl in E; lia].
Qed.

Lemma digit_text_char (d : digit) :
  exists c, digit_text d = char c /\ is_operator_char c = false.
Proof. destruct d; eexists; split; reflexivity. Qed.

(** One press keeps the display well formed. *)
Lemma apply_well_formed (st st' : State) (t : Token) :
  well_formed_text (display_text st) ->
  apply st t = Returns st' -> well_formed_text (display_text st').
Proof.
  intros [Hne Hs].
  destruct t as [d | | o | | | ].
  - rewrite process_digit. intros [= <-]. cbn [display_text].
    destruct (digit_text_char d) as [c [-> Hc]].
    destruct (new_expression st || String.eqb (display_text st) "0");
      try (split; [discriminate | reflexivity]);
      (split; [apply app_nonempty; discriminate | ];
       now rewrite search_consecutive_app_char, Hs, Hc, andb_false_r).
  - rewrite process_decimal_point. intros [= <-].
    destruct (new_expression st); [split; [discriminate | reflexivity] | ].
    destruct (str_in "." _); [now split | ].
    cbn [display_text]. split; [apply app_nonempty; discriminate | ].
    change "."%string with (char ".").
    now rewrite search_consecutive_app_char, Hs, andb_false_r.
  - rewrite process_operator. intros [= <-]. cbn [display_text].
    destruct (operator_text_char o) as [c [-> Hc]].
    split; [apply app_nonempty; discriminate | ].
    unfold ends_with_operator.
    destruct (last_char (display_text st)) as [l | ] eqn:El.
    + destruct (is_operator_char l) eqn:Eo.
      * now apply (search_consecutive_replace _ l).
      * rewrite search_consecutive_app_char, Hs.
        unfold ends_with_operator. now rewrite El, Eo.
    + rewrite search_consecutive_app_char, Hs.
      unfold ends_with_operator. now rewrite El.
  - rewrite process_clear. intros [= <-].
    destruct (new_expression st); [now split | split; [discriminate | reflexivity]].
  - rewrite process_delete. intros [= <-].
    destruct (new_expression st); [now split | ].
    cbn [set_display_text display_text].
    destruct (1 <? String.length (display_text st))%nat eqn:El;
      [ | split; [discriminate | reflexivity]].
    apply Nat.ltb_lt in El.
    split; [now apply drop_last_nonempty | now apply search_consecutive_drop_last].
  - rewrite process_equals.
    destruct (new_expression st); [intros [= <-]; now split | ].
    apply evaluate_expression_well_formed.
Qed.

(** Every reachable display is non-empty and has no two adjacent
    operators. *)
Lemma reachable_well_formed (st : State) :
  reachable st -> well_formed_text (display_text st).
Proof.
  induction 1 as [| st st' t Hr IH Ha].
  - split; [discriminate | reflexivity].
  - exact (apply_well_formed st st' t IH Ha).
Qed.

Lemma run_reachable (ts : list Token) (st st' : State) :
  reachable st -> run st ts = Returns st' -> reachable st'.
Proof.
  revert st. induction ts as [| t ts IH]; intros st Hr.
  - simpl. now intros [= <-].
  - simpl. destruct (apply st t) as [st1 | e st1] eqn:E; [ | discriminate].
    apply IH. exact (reachable_apply st st1 t Hr E).
Qed.

(** ** Delete *)

Lemma set_display_text_same (st : State) :
  set_display_text st (display_text st) = st.
Proof. now destruct st. Qed.

Lemma delete_at_zero (n : nat) (st : State) :
  new_expression st = false -> display_text st = "0" ->
  run st (repeat Delete n) = Returns st.
Proof.
  intros Hf Ht. induction n as [| n IH]; [reflexivity | ].
  cbn [repeat run]. rewrite process_delete, Hf, Ht. cbn.
  rewrite <- Ht at 1. rewrite set_display_text_same. exact IH.
Qed.

Lemma delete_run (n : nat) (st : State) :
  new_expression st = false -> display_text st <> "" ->
  (String.length (display_text st) <= n)%nat ->
  run st (repeat Delete n) = Returns (set_display_text st "0").
Proof.
  revert st. induction n as [| n IH]; intros st Hf Hne Hlen.
  - apply Nat.le_0_r, length_zero_empty in Hlen. contradiction.
  - cbn [repeat run]. rewrite process_delete, Hf.
    destruct (1 <? String.length (display_text st))%nat eqn:El.
    + apply Nat.ltb_lt in El.
      rewrite (IH (set_display_text st (drop_last (display_text st)))).
      * reflexivity.
      * exact Hf.
      * now apply drop_last_nonempty.
      * cbn [set_display_text display_text]. rewrite length_drop_last. lia.
    + now rewrite delete_at_zero.
Qed.

(** C5, as the code has it.  Delete never empties a reachable display; and
    from a reachable state whose [new_expression] is unset, pressing Delete
    as often as the display has characters, or more often, ends with the
    display at ["0"]. *)
Theorem delete_ends_at_zero (st : State) :
  reachable st ->
  (exists st', apply st Delete = Returns st' /\ display_text st' <> "") /\
  (new_expression st = false ->
   forall n : nat, (String.length (display_text st) <= n)%nat ->
   run st (repeat Delete n) = Returns (set_display_text st "0")).
Proof.
  intro Hr. pose proof (reachable_well_formed st Hr) as Hw. split.
  - destruct (apply st Delete) as [st' | e st'] eqn:E.
    + exists st'. split; [reflexivity | ].
      exact (proj1 (apply_well_formed st st' Delete Hw E)).
    + rewrite process_delete in E. discriminate.
  - intros Hf n Hn. apply delete_run; [exact Hf | exact (proj1 Hw) | exact Hn].
Qed.

Lemma delete_ends_at_zero_witness :
  reachable (mkState "12+" (VInt 0) false) /\
  (exists st', apply (mkState "12+" (VInt 0) false) Delete = Returns st'
               /\ display_text st' <> "") /\
  (new_expression (mkState "12+" (VInt 0) false) = false ->
   forall n : nat, (String.length "12+" <= n)%nat ->
   run (mkState "12+" (VInt 0) false) (repeat Delete n)
   = Returns (mkState "0" (VInt 0) false)).
Proof.
  assert (Hr : reachable (mkState "12+" (VInt 0) false)).
  { apply (run_reachable [Digit D1; Digit D2; Operator Plus] initial_state);
      [apply reachable_initial | reflexivity]. }
  split; [exact Hr | ].
  exact (delete_ends_at_zero (mkState "12+" (VInt 0) false) Hr).
Defined.

(** C5 as the specification states it fails after a result: [1 2 =] leaves
    ["12"] on the display with [new_expression] set, and no number of
    presses of Delete changes it. *)
Lemma delete_after_result_is_ignored :
  reachable (mkState "12" (VInt 12) true) /\
  forall n : nat,
    run (mkState "12" (VInt 12) true) (repeat Delete n)
    = Returns (mkState "12" (VInt 12) true) /\
    display_text (mkState "12" (VInt 12) true) <> "0".
Proof.
  split.
  - apply (run_reachable [Digit D1; Digit D2; Equals] initial_state);
      [apply reachable_initial | vm_compute; reflexivity].
  - intro n. split; [ | discriminate].
    induction n as [| n IH]; [reflexivity | ].
    cbn [repeat run]. rewrite process_delete. exact IH.
Qed.

(** ** Two operators in a row *)

(** C6.  From a reachable state, an operator button leaves a display that
    ends with that operator; a second operator button replaces it; and the
    display then has no two adjacent operator characters. *)
Theorem second_operator_replaces_first (st : State) (o1 o2 : operator) :
  reachable st ->
  exists before : string,
    apply st (Operator o1)
    = Returns (mkState (before ++ operator_text o1) (last_result st) false) /\
    apply (mkState (before ++ operator_text o1) (last_result st) false)
          (Operator o2)
    = Returns (mkState (before ++ operator_text o2) (last_result st) false) /\
    search_consecutive_operators (before ++ operator_text o2) = false.
Proof.
  intro Hr.
  exists (if ends_with_operator (display_text st)
          then drop_last (display_text st) else display_text st).
  set (before := if ends_with_operator (display_text st)
                 then drop_last (display_text st) else display_text st).
  assert (H1 : apply st (Operator o1)
               = Returns (mkState (before ++ operator_text o1)
                                  (last_result st) false))
    by apply process_operator.
  assert (H2 : apply (mkState (before ++ operator_text o1) (last_result st) false)
                     (Operator o2)
               = Returns (mkState (before ++ operator_text o2)
                                  (last_result st) false)).
  { rewrite process_operator. cbn [display_text last_result].
    destruct (operator_text_char o1) as [c [-> Hc]].
    unfold ends_with_operator.
    now rewrite last_char_app_char, Hc, drop_last_app_char. }
  split; [exact H1 | split; [exact H2 | ]].
  pose proof (reachable_apply _ _ _ Hr H1) as Hr1.
  pose proof (reachable_apply _ _ _ Hr1 H2) as Hr2.
  exact (proj2 (reachable_well_formed _ Hr2)).
Qed.

Lemma second_operator_replaces_first_witness :
  reachable (mkState "-5" (VInt (-5)) true) /\
  exists before : string,
    apply (mkState "-5" (VInt (-5)) true) (Operator Plus)
    = Returns (mkState (before ++ "+") (VInt (-5)) false) /\
    apply (mkState (before ++ "+") (VInt (-5)) false) (Operator Minus)
    = Returns (mkState (before ++ "-") (VInt (-5)) false) /\
    search_consecutive_operators (before ++ "-") = false.
Proof.
  assert (Hr : reachable (mkState "-5" (VInt (-5)) true)).
  { apply (run_reachable [Digit D3; Operator Minus; Digit D8; Equals]
                         initial_state);
      [apply reachable_initial | vm_compute; reflexivity]. }
  split; [exact Hr | ].
  exact (second_operator_replaces_first
           (mkState "-5" (VInt (-5)) true) Plus Minus Hr).
Defined.

(** ** Formatting of an integral result *)

Lemma py_int_number (v : pyval) (i : Z) : py_int v = Ok i -> is_number v = true.
Proof. destruct v; [reflexivity | reflexivity | discriminate]. Qed.

(** A value that [int] accepts is neither infinity. *)
Lemma py_int_not_inf (v : pyval) (i : Z) (s : bool) :
  py_int v = Ok i -> py_eq v (VFloat (S754_infinity s)) = false.
Proof.
  destruct v as [z | f | ]; [reflexivity | | discriminate].
  destruct f as [s' | s' | | s' m e]; try discriminate; intros _.
  - destruct s; reflexivity.
  - destruct s, s'; reflexivity.
Qed.

Lemma evaluate_integral (st : State) (result : pyval) (i : Z) :
  strip_trailing_operators (display_text st) <> "" ->
  is_safe_expression (strip_trailing_operators (display_text st)) = true ->
  py_eval (strip_trailing_operators (display_text st)) = Ok result ->
  py_int result = Ok i ->
  py_eq result (VInt i) = true ->
  (String.length (int_digits i) <= int_max_str_digits)%nat ->
  evaluate_expression st = Returns (mkState (int_text i) result true).
Proof.
  intros Hne Hsafe Heval Hint Heq Hlen.
  unfold evaluate_expression.
  apply String.eqb_neq in Hne. rewrite Hne.
  unfold try_body. rewrite Hsafe, Heval. cbn [negb].
  rewrite (py_int_number result i Hint).
  unfold pos_inf, neg_inf. rewrite !(py_int_not_inf result i _ Hint).
  cbn [orb]. rewrite Hint, Heq. cbn [py_str]. unfold str_int.
  apply Nat.ltb_ge in Hlen. now rewrite Hlen.
Qed.

(** C8.  When the value of a validated expression is a number equal to its
    own truncation [i], of no more digits than [str] converts, the display
    becomes the decimal numeral of [i], which has no decimal point, and the
    value is kept in [last_result]; ["7"] displays ["7"], and ["2.5+2.5"],
    whose value is the float 5.0, displays ["5"]. *)
Theorem integral_result_has_no_decimal_point :
  (forall (st : State) (result : pyval) (i : Z),
     strip_trailing_operators (display_text st) <> "" ->
     is_safe_expression (strip_trailing_operators (display_text st)) = true ->
     py_eval (strip_trailing_operators (display_text st)) = Ok result ->
     py_int result = Ok i ->
     py_eq result (VInt i) = true ->
     (String.length (int_digits i) <= int_max_str_digits)%nat ->
     evaluate_expression st = Returns (mkState (int_text i) result true) /\
     str_in "." (int_text i) = false) /\
  (forall lr ne,
     evaluate_expression (mkState "7" lr ne)
     = Returns (mkState "7" (VInt 7) true)) /\
  (forall lr ne,
     py_eval "2.5+2.5" = Ok (VFloat (float_of_Z 5)) /\
     evaluate_expression (mkState "2.5+2.5" lr ne)
     = Returns (mkState "5" (VFloat (float_of_Z 5)) true)).
Proof.
  split; [ | split].
  - intros st result i Hne Hsafe Heval Hint Heq Hlen.
    split; [now apply evaluate_integral | apply int_text_no_dot].
  - intros lr ne. vm_compute. reflexivity.
  - intros lr ne. split; vm_compute; reflexivity.
Qed.

Lemma integral_result_has_no_decimal_point_witness :
  evaluate_expression (mkState "6/1.5+" (VInt 0) false)
  = Returns (mkState "4" (VFloat (float_of_Z 4)) true) /\
  str_in "." "4" = false.
Proof.
  apply (proj1 integral_result_has_no_decimal_point
               (mkState "6/1.5+" (VInt 0) false) (VFloat (float_of_Z 4)) 4).
  - discriminate.
  - reflexivity.
  - vm_compute. reflexivity.
  - reflexivity.
  - reflexivity.
  - vm_compute. lia.
Defined.

(** ** Division by zero *)

Lemma py_truediv_by_zero (x y : pyval) :
  value_is_zero y = true -> dividend_fits x y = true ->
  py_truediv x y = Raise ZeroDivisionError.
Proof.
  destruct x as [a | f | ], y as [b | g | ]; simpl; try discriminate.
  - intros Hb _. unfold int_truediv. now rewrite Hb.
  - intros Hg Ha. unfold int_to_float.
    apply negb_true_iff in Ha. rewrite Ha. simpl. now rewrite Hg.
  - intros Hb _. apply Z.eqb_eq in Hb. subst b. reflexivity.
  - intros Hg _. now rewrite Hg.
Qed.

(** A division by a zero has no value. *)
Lemma py_truediv_zero_no_value (x y v : pyval) :
  value_is_zero y = true -> py_truediv x y <> Ok v.
Proof.
  destruct x as [a | f | ], y as [b | g | ]; simpl; try discriminate.
  - intros Hb. unfold int_truediv. now rewrite Hb.
  - intros Hg. destruct (int_to_float a); simpl; [ | discriminate].
    now rewrite Hg.
  - intros Hb. apply Z.eqb_eq in Hb. subst b. discriminate.
  - intros Hg. now rewrite Hg.
Qed.

Lemma fails_at_zero_division_raises (e : expr) :
  fails_at_zero_division e -> eval_expr e = Raise ZeroDivisionError.
Proof.
  induction 1 as [a b x y Ha Hb Hy Hx | o a _ IH | o a b _ IH
                 | o a b x Ha _ IH | f _ IH | f a s _ IH | f a s x Hf _ IH];
    cbn [eval_expr].
  - rewrite Ha, Hb. cbn [bind eval_binop]. now apply py_truediv_by_zero.
  - now rewrite IH.
  - now rewrite IH.
  - now rewrite Ha, IH.
  - now rewrite IH.
  - now rewrite IH.
  - now rewrite Hf, IH.
Qed.

Lemma has_zero_divisor_no_value (e : expr) :
  has_zero_divisor e -> forall v, eval_expr e <> Ok v.
Proof.
  induction 1 as [a b y Hb Hy | o a _ IH | o a b _ IH | o a b _ IH
                 | f _ IH | f a s _ IH | f a s _ IH];
    intro v; cbn [eval_expr].
  - rewrite Hb. destruct (eval_expr a) as [x | ex]; [ | discriminate].
    cbn [bind eval_binop]. now apply py_truediv_zero_no_value.
  - destruct (eval_expr a) as [x | ex] eqn:E; [ | discriminate].
    now elim (IH x).
  - destruct (eval_expr a) as [x | ex] eqn:E; [ | discriminate].
    now elim (IH x).
  - destruct (eval_expr a) as [x | ex]; [ | discriminate].
    destruct (eval_expr b) as [y | ex] eqn:E; [ | discriminate].
    now elim (IH y).
  - destruct (eval_expr f) as [x | ex]; discriminate.
  - destruct (eval_expr f) as [x | ex]; [ | discriminate].
    destruct (eval_expr a) as [y | ex]; discriminate.
  - destruct (eval_expr f) as [x | ex]; [ | discriminate].
    destruct (eval_expr a) as [y | ex]; discriminate.
Qed.

(** What [evaluate_expression] does when [eval] raises. *)
Lemma evaluate_raise (st : State) (ex : exn) :
  strip_trailing_operators (display_text st) <> "" ->
  is_safe_expression (strip_trailing_operators (display_text st)) = true ->
  py_eval (strip_trailing_operators (display_text st)) = Raise ex ->
  evaluate_expression st = handle ex st.
Proof.
  intros Hne Hsafe Heval. unfold evaluate_expression.
  apply String.eqb_neq in Hne. rewrite Hne.
  unfold try_body. now rewrite Hsafe, Heval.
Qed.

(** C7, as the code has it.  ["10/0"] shows ["Error: Div/0"].  So does every
    validated text that parses and whose evaluation, operands left to
    right, fails first at a division by a zero, the dividend being a float,
    an [int] that converts to one, or an [int] over an [int].  And a text
    that parses to an expression with a division by a zero never evaluates
    to a value: [eval] raises, and the display is what the handlers make
    of the exception. *)
Theorem division_by_zero_shows_marker :
  (forall lr ne,
     evaluate_expression (mkState "10/0" lr ne)
     = Returns (mkState "Error: Div/0" lr true)) /\
  (forall (st : State) (e : expr),
     strip_trailing_operators (display_text st) <> "" ->
     is_safe_expression (strip_trailing_operators (display_text st)) = true ->
     py_parse (strip_trailing_operators (display_text st)) = Some e ->
     fails_at_zero_division e ->
     evaluate_expression st
     = Returns (mkState "Error: Div/0" (last_result st) true)) /\
  (forall (st : State) (e : expr),
     strip_trailing_operators (display_text st) <> "" ->
     is_safe_expression (strip_trailing_operators (display_text st)) = true ->
     py_parse (strip_trailing_operators (display_text st)) = Some e ->
     has_zero_divisor e ->
     exists ex : exn,
       eval_expr e = Raise ex /\ evaluate_expression st = handle ex st).
Proof.
  split; [ | split].
  - intros lr ne. vm_compute. reflexivity.
  - intros st e Hne Hsafe Hparse Hz.
    rewrite (evaluate_raise st ZeroDivisionError Hne Hsafe); [reflexivity | ].
    unfold py_eval. rewrite Hparse. now apply fails_at_zero_division_raises.
  - intros st e Hne Hsafe Hparse Hz.
    destruct (eval_expr e) as [v | ex] eqn:E.
    + now elim (has_zero_divisor_no_value e Hz v).
    + exists ex. split; [reflexivity | ].
      apply evaluate_raise; [exact Hne | exact Hsafe | ].
      unfold py_eval. now rewrite Hparse.
Qed.

Lemma division_by_zero_shows_marker_witness :
  evaluate_expression (mkState "7*8/0.0-1" (VInt 3) false)
  = Returns (mkState "Error: Div/0" (VInt 3) true).
Proof.
  apply (proj1 (proj2 division_by_zero_shows_marker)
               (mkState "7*8/0.0-1" (VInt 3) false)
               (EBin Sub
                  (EBin Div (EBin Mul (ENum (VInt 7)) (ENum (VInt 8)))
                            (ENum (VFloat (S754_zero false))))
                  (ENum (VInt 1)))).
  - discriminate.
  - reflexivity.
  - reflexivity.
  - apply fz_left.
    apply (fz_here _ _ (VInt 56) (VFloat (S754_zero false))); reflexivity.
Defined.

(** C7 as the specification states it fails when something else fails
    before the division: in [1 + 0 5 / 0] the divisor is zero, but the
    literal [05] is a syntax error and the display shows ["Error"]. *)
Lemma zero_divisor_behind_syntax_error :
  is_safe_expression "1+05/0" = true /\
  py_eval "1+05/0" = Raise SyntaxError /\
  run initial_state
      [Digit D1; Operator Plus; Digit D0; Digit D5; Operator Divide; Digit D0;
       Equals]
  = Returns (mkState "Error" (VInt 0) true).
Proof. repeat split. Qed.

(** ** The grammar of the specification and the validation of the code *)

Lemma no_adjacent_operators_search (s : string) :
  no_adjacent_operators s = negb (search_consecutive_operators s).
Proof.
  unfold no_adjacent_operators.
  induction s as [| a s IH]; [reflexivity | ].
  destruct s as [| b s]; [reflexivity | ].
  change (adjacent_pairs (String a (String b s)))
    with ((a, b) :: adjacent_pairs (String b s)).
  change (search_consecutive_operators (String a (String b s)))
    with (is_operator_char a && is_operator_char b
          || search_consecutive_operators (String b s)).
  cbn [forallb fst snd]. rewrite IH. now rewrite negb_orb.
Qed.

Lemma count_app_char (c d : ascii) (s : string) :
  count c (s ++ char d) = (count c s + (if Ascii.eqb d c then 1 else 0))%nat.
Proof.
  induction s as [| a s IH]; simpl; [lia | ]. rewrite IH. lia.
Qed.

(** With at most one dot in every run, and [run] the run under way before
    [s]: [run] has at most one dot; when it has one, the digits that [s]
    begins with are not followed by a dot; and [s] has no two dots with
    only digits between. *)
Lemma one_dot_per_run_from (s run : string) :
  forallb (fun r => (count "." r <=? 1)%nat) (numeric_runs_from run s) = true ->
  (count "." run <= 1)%nat /\
  (count "." run = 1%nat ->
   match skip_digits s with String d _ => Ascii.eqb d "." | "" => false end
   = false) /\
  search_multiple_dots s = false.
Proof.
  revert run. induction s as [| c s IH]; intros run H.
  - simpl in H. rewrite andb_true_r in H. apply Nat.leb_le in H.
    split; [exact H | split; [intros _; reflexivity | reflexivity]].
  - cbn [numeric_runs_from] in H. unfold in_numeric_run in H.
    cbn [skip_digits search_multiple_dots]. unfold re_digit.
    destruct (is_ascii_digit c) eqn:Ed.
    + cbn [orb] in H. apply IH in H. destruct H as [H1 [H2 H3]].
      rewrite count_app_char in H1, H2.
      assert (Ec : Ascii.eqb c "." = false).
      { destruct (Ascii.eqb c ".") eqn:E; [ | reflexivity].
        apply Ascii.eqb_eq in E. subst c. discriminate. }
      rewrite Ec in *. cbn [andb orb].
      split; [ | split]; [lia | | exact H3].
      intro Hr. apply H2. lia.
    + cbn [orb] in H. destruct (Ascii.eqb c ".") eqn:Ec.
      * apply IH in H. destruct H as [H1 [H2 H3]].
        rewrite count_app_char, Ec in H1, H2.
        split; [ | split]; [lia | intro; lia | ].
        cbn [andb]. rewrite H3, orb_false_r. apply H2. lia.
      * cbn [forallb] in H. apply andb_true_iff in H. destruct H as [Hr H].
        apply Nat.leb_le in Hr. apply (IH "") in H.
        destruct H as [_ [_ H3]]. cbn [andb orb].
        split; [ | split]; [exact Hr | intros _; reflexivity | exact H3].
Qed.

Lemma grammar_char_safe (c : ascii) : grammar_char c = true -> safe_char c = true.
Proof.
  unfold grammar_char, safe_char, re_digit.
  destruct (is_ascii_digit c), (is_operator_char c), (Ascii.eqb c "."),
    (Ascii.eqb c "("), (Ascii.eqb c ")"), (re_space c); auto.
Qed.

Lemma str_in_char_leading (c : ascii) :
  str_in (char c) "+*/" = Ascii.eqb c "+" || Ascii.eqb c "*" || Ascii.eqb c "/".
Proof.
  cbn [str_in]. rewrite !prefix_char.
  unfold char. cbn [prefix]. now rewrite !orb_false_r, !orb_assoc.
Qed.

(** A non-empty text that conforms to the grammar of the specification
    passes [is_safe_expression]. *)
Lemma conforming_is_safe (s : string) :
  s <> "" -> conforms_to_grammar s = true -> is_safe_expression s = true.
Proof.
  intros Hne H. unfold conforms_to_grammar in H.
  repeat (apply andb_true_iff in H; destruct H as [H ?]).
  rename H into Hchars, H0 into Hdots, H1 into Hbal, H2 into Hlead, H3 into Hadj.
  unfold is_safe_expression.
  rewrite no_adjacent_operators_search in Hadj.
  apply negb_true_iff in Hadj. rewrite Hadj.
  destruct (one_dot_per_run_from s "" Hdots) as [_ [_ Hd]]. rewrite Hd.
  destruct s as [| c s]; [contradiction | ].
  cbn [first_char]. rewrite str_in_char_leading.
  cbn [no_leading_operator] in Hlead. apply negb_true_iff in Hlead.
  rewrite Hlead. unfold balanced_parentheses in Hbal. rewrite Hbal.
  cbn [negb]. unfold match_safe_pattern.
  exact (all_chars_impl grammar_char safe_char _ grammar_char_safe Hchars).
Qed.

(** ** The tokenizer *)

Local Open Scope nat_scope.

Lemma indentation_length (s : string) (col : nat) :
  (String.length (snd (indentation col s)) <= String.length s)%nat.
Proof.
  revert col. induction s as [| c s IH]; intro col; [simpl; lia | ].
  cbn [indentation String.length].
  destruct (Ascii.eqb c " "); [specialize (IH (S col)); lia | ].
  destruct (code c =? 9)%N;
    [specialize (IH ((col / 8 + 1) * 8)%nat); lia | ].
  destruct (code c =? 12)%N; [specialize (IH O); lia | ].
  cbn [snd String.length]. lia.
Qed.

Lemma span_digits_length (s : string) :
  (String.length (snd (span_digits s)) <= String.length s)%nat.
Proof.
  induction s as [| c s IH]; [simpl; lia | ].
  cbn [span_digits String.length].
  destruct (is_ascii_digit c); [ | cbn [snd String.length]; lia].
  destruct (span_digits s) as [d r]. cbn [snd] in *. lia.
Qed.

Lemma tokenize_S (fuel : nat) (s : string) (level : nat) (atbol : bool) :
  tokenize (S fuel) s level atbol =
      if atbol then
        let '(col, s1) := indentation O s in
        match s1 with
        | String c t =>
            if is_newline c then tokenize fuel t level true
            else if Nat.eqb level 0 && negb (Nat.eqb col 0) then None
            else tokenize fuel s1 level false
        | "" =>
            if Nat.eqb level 0 && Nat.eqb col 0 then Some [] else None
        end
      else
        match s with
        | "" => if Nat.eqb level 0 then Some [] else None
        | String c t =>
            if is_blank c then tokenize fuel t level false
            else if is_newline c then
              if Nat.eqb level 0
              then option_map (cons TNewline) (tokenize fuel t level true)
              else tokenize fuel t level true
            else if Ascii.eqb c "(" then
              if (max_level <=? level)%nat then None
              else option_map (cons TLPar) (tokenize fuel t (S level) false)
            else if Ascii.eqb c ")" then
              match level with
              | O => None
              | S l => option_map (cons TRPar) (tokenize fuel t l false)
              end
            else if Ascii.eqb c "+" then
              option_map (cons TPlus) (tokenize fuel t level false)
            else if Ascii.eqb c "-" then
              option_map (cons TMinus) (tokenize fuel t level false)
            else if Ascii.eqb c "*" then
              option_map (cons TStar) (tokenize fuel t level false)
            else if Ascii.eqb c "/" then
              option_map (cons TSlash) (tokenize fuel t level false)
            else if Ascii.eqb c "." then
              match span_digits t with
              | ("", _) => option_map (cons TDot) (tokenize fuel t level false)
              | (fp, r) =>
                  option_map (cons (TNum (float_literal "" fp)))
                             (tokenize fuel r level false)
              end
            else if is_ascii_digit c then
              let '(ip, r) := span_digits s in
              match r with
              | String d r' =>
                  if Ascii.eqb d "." then
                    let '(fp, r'') := span_digits r' in
                    option_map (cons (TNum (float_literal ip fp)))
                               (tokenize fuel r'' level false)
                  else
                    match int_literal ip with
                    | Some v =>
                        option_map (cons (TNum v)) (tokenize fuel r level false)
                    | None => None
                    end
              | "" =>
                  match int_literal ip with
                  | Some v => Some [TNum v]
                  | None => None
                  end
              end
            else None
        end.
Proof. reflexivity. Qed.

(** Fuel beyond twice the length of the text does not change the
    result: the tokenizer never fails for lack of fuel. *)
Lemma tokenize_fuel (fuel : nat) :
  forall (s : string) (level : nat) (atbol : bool),
    (2 * String.length s + (if atbol then 1 else 0) < fuel)%nat ->
    tokenize (S fuel) s level atbol = tokenize fuel s level atbol.
Proof.
  induction fuel as [| fuel IH]; intros s level atbol Hf; [lia | ].
  rewrite (tokenize_S (S fuel)), (tokenize_S fuel).
  destruct atbol.
  - pose proof (indentation_length s O) as Hi.
    destruct (indentation O s) as [col s1]. cbn [snd] in Hi.
    destruct s1 as [| c t]; [reflexivity | ]. cbn [String.length] in Hi.
    destruct (is_newline c); [apply IH; lia | ].
    destruct (Nat.eqb level 0 && negb (Nat.eqb col 0)); [reflexivity | ].
    apply IH. cbn [String.length]. lia.
  - destruct s as [| c t]; [reflexivity | ]. cbn [String.length] in Hf.
    assert (Ht : forall l b, tokenize (S fuel) t l b = tokenize fuel t l b)
      by (intros l b; apply IH; destruct b; lia).
    destruct (is_blank c); [apply Ht | ].
    destruct (is_newline c); [now rewrite Ht | ].
    destruct (Ascii.eqb c "("); [now rewrite Ht | ].
    destruct (Ascii.eqb c ")"); [destruct level; [reflexivity | now rewrite Ht] | ].
    destruct (Ascii.eqb c "+"); [now rewrite Ht | ].
    destruct (Ascii.eqb c "-"); [now rewrite Ht | ].
    destruct (Ascii.eqb c "*"); [now rewrite Ht | ].
    destruct (Ascii.eqb c "/"); [now rewrite Ht | ].
    destruct (Ascii.eqb c ".").
    + pose proof (span_digits_length t) as Hs.
      destruct (span_digits t) as [fp r]. cbn [snd] in Hs.
      destruct fp; [now rewrite Ht | ].
      rewrite IH by lia. reflexivity.
    + destruct (is_ascii_digit c) eqn:Ed; [ | reflexivity].
      pose proof (span_digits_length (String c t)) as Hs.
      assert (Hlt : (String.length (snd (span_digits (String c t))) <= String.length t)%nat).
      { cbn [span_digits]. rewrite Ed.
        pose proof (span_digits_length t).
        destruct (span_digits t). simpl in *. lia. }
      destruct (span_digits (String c t)) as [ip r]. cbn [snd] in Hs, Hlt.
      destruct r as [| d r']; [reflexivity | ]. cbn [String.length] in Hlt.
      destruct (Ascii.eqb d ".").
      * pose proof (span_digits_length r') as Hs'.
        destruct (span_digits r') as [fp r'']. cbn [snd] in Hs'.
        rewrite IH by lia. reflexivity.
      * destruct (int_literal ip); [ | reflexivity].
        rewrite IH by (cbn [String.length]; lia). reflexivity.
Qed.

Lemma tokenize_enough_fuel (s : string) (level : nat) (atbol : bool) (extra : nat) :
  tokenize (2 * String.length s + 2 + extra) s level atbol
  = tokenize (2 * String.length s + 2) s level atbol.
Proof.
  induction extra as [| extra IH]; [now rewrite Nat.add_0_r | ].
  rewrite Nat.add_succ_r, tokenize_fuel; [exact IH | destruct atbol; lia].
Qed.

Local Open Scope Z_scope.

(** ** The parser and operator precedence *)

Local Open Scope list_scope.
Local Open Scope nat_scope.

Lemma parse_sum_S n ts :
  parse_sum (S n) ts =
  match parse_term n ts with
  | Some (a, r) => parse_sum_rest n a r
  | None => None
  end.
Proof. reflexivity. Qed.

Lemma parse_sum_rest_S n a ts :
  parse_sum_rest (S n) a ts =
  match ts with
  | TPlus :: r =>
      match parse_term n r with
      | Some (b, r') => parse_sum_rest n (EBin Add a b) r'
      | None => None
      end
  | TMinus :: r =>
      match parse_term n r with
      | Some (b, r') => parse_sum_rest n (EBin Sub a b) r'
      | None => None
      end
  | _ => Some (a, ts)
  end.
Proof. reflexivity. Qed.

Lemma parse_term_S n ts :
  parse_term (S n) ts =
  match parse_factor n ts with
  | Some (a, r) => parse_term_rest n a r
  | None => None
  end.
Proof. reflexivity. Qed.

Lemma parse_term_rest_S n a ts :
  parse_term_rest (S n) a ts =
  match ts with
  | TStar :: r =>
      match parse_factor n r with
      | Some (b, r') => parse_term_rest n (EBin Mul a b) r'
      | None => None
      end
  | TSlash :: r =>
      match parse_factor n r with
      | Some (b, r') => parse_term_rest n (EBin Div a b) r'
      | None => None
      end
  | _ => Some (a, ts)
  end.
Proof. reflexivity. Qed.

Lemma parse_factor_S n ts :
  parse_factor (S n) ts =
  match ts with
  | TPlus :: r =>
      match parse_factor n r with
      | Some (e, r') => Some (EUn UPlus e, r')
      | None => None
      end
  | TMinus :: r =>
      match parse_factor n r with
      | Some (e, r') => Some (EUn UMinus e, r')
      | None => None
      end
  | TNum v :: r => parse_trailers n (ENum v) r
  | TLPar :: TRPar :: r => parse_trailers n ETuple r
  | TLPar :: r =>
      match parse_sum n r with
      | Some (e, TRPar :: r') => parse_trailers n e r'
      | _ => None
      end
  | _ => None
  end.
Proof. reflexivity. Qed.

Lemma parse_trailers_S n f ts :
  parse_trailers (S n) f ts =
  match ts with
  | TLPar :: TRPar :: r => parse_trailers n (ECall0 f) r
  | TLPar :: TStar :: r =>
      match parse_sum n r with
      | Some (e, TRPar :: r') => parse_trailers n (ECall1 f true e) r'
      | _ => None
      end
  | TLPar :: r =>
      match parse_sum n r with
      | Some (e, TRPar :: r') => parse_trailers n (ECall1 f false e) r'
      | _ => None
      end
  | _ => Some (f, ts)
  end.
Proof. reflexivity. Qed.

Ltac use_mono :=
  match goal with
  | IH : forall ts r, ?p ?n ts = Some r -> ?p (S ?n) ts = Some r,
    E : ?p ?n ?ts = Some ?r |- context [?p (S ?n) ?ts] =>
      rewrite (IH ts r E)
  | IH : forall a ts r, ?p ?n a ts = Some r -> ?p (S ?n) a ts = Some r,
    E : ?p ?n ?a ?ts = Some ?r |- context [?p (S ?n) ?a ?ts] =>
      rewrite (IH a ts r E)
  end.

Lemma parse_mono_step (n : nat) : mono_at n.
Proof.
  induction n as [| n IH].
  - repeat split; intros; discriminate.
  - destruct IH as (Is & Isr & It & Itr & If & Itl).
    repeat split.
    + intros ts r H. rewrite parse_sum_S in *.
      destruct (parse_term n ts) as [[a r1] | ] eqn:E; [ | discriminate].
      use_mono. now apply Isr.
    + intros a ts r H. rewrite parse_sum_rest_S in *.
      destruct ts as [| [] ts]; try exact H;
        (destruct (parse_term n ts) as [[b r1] | ] eqn:E; [ | discriminate];
         use_mono; now apply Isr).
    + intros ts r H. rewrite parse_term_S in *.
      destruct (parse_factor n ts) as [[a r1] | ] eqn:E; [ | discriminate].
      use_mono. now apply Itr.
    + intros a ts r H. rewrite parse_term_rest_S in *.
      destruct ts as [| [] ts]; try exact H;
        (destruct (parse_factor n ts) as [[b r1] | ] eqn:E; [ | discriminate];
         use_mono; now apply Itr).
    + intros ts r H. rewrite parse_factor_S in *.
      destruct ts as [| [] ts]; try discriminate.
      * now apply Itl.
      * destruct (parse_factor n ts) as [[b r1] | ] eqn:E; [ | discriminate].
        now use_mono.
      * destruct (parse_factor n ts) as [[b r1] | ] eqn:E; [ | discriminate].
        now use_mono.
      * destruct ts as [| t ts].
        { destruct (parse_sum n []) as [[e [| [] r1]] | ] eqn:E; try discriminate.
          use_mono. now apply Itl. }
        destruct t;
          try (destruct (parse_sum n (_ :: ts)) as [[e [| [] r1]] | ] eqn:E;
               try discriminate; use_mono; now apply Itl).
        now apply Itl.
    + intros f ts r H. rewrite parse_trailers_S in *.
      destruct ts as [| [] ts]; try exact H.
      destruct ts as [| t ts].
      { destruct (parse_sum n []) as [[e [| [] r1]] | ] eqn:E; try discriminate.
        use_mono. now apply Itl. }
      destruct t;
        try (destruct (parse_sum n (_ :: ts)) as [[e [| [] r1]] | ] eqn:E;
             try discriminate; use_mono; now apply Itl).
      * destruct (parse_sum n ts) as [[e [| [] r1]] | ] eqn:E;
             try discriminate; use_mono; now apply Itl.
      * now apply Itl.
Qed.

Lemma parse_mono (n m : nat) : (n <= m)%nat ->
  (forall ts r, parse_sum n ts = Some r -> parse_sum m ts = Some r) /\
  (forall a ts r, parse_sum_rest n a ts = Some r -> parse_sum_rest m a ts = Some r) /\
  (forall ts r, parse_term n ts = Some r -> parse_term m ts = Some r) /\
  (forall a ts r, parse_term_rest n a ts = Some r -> parse_term_rest m a ts = Some r) /\
  (forall ts r, parse_factor n ts = Some r -> parse_factor m ts = Some r) /\
  (forall f ts r, parse_trailers n f ts = Some r -> parse_trailers m f ts = Some r).
Proof.
  induction 1 as [| m Hle IH]; [repeat split; auto | ].
  destruct IH as (Is & Isr & It & Itr & If & Itl).
  destruct (parse_mono_step m) as (Js & Jsr & Jt & Jtr & Jf & Jtl).
  repeat split; auto.
Qed.

Lemma parse_sum_rest_mono n m a ts r :
  (n <= m)%nat -> parse_sum_rest n a ts = Some r -> parse_sum_rest m a ts = Some r.
Proof. intro H. apply (parse_mono n m H). Qed.

Lemma parse_term_rest_mono n m a ts r :
  (n <= m)%nat -> parse_term_rest n a ts = Some r -> parse_term_rest m a ts = Some r.
Proof. intro H. apply (parse_mono n m H). Qed.

Lemma parse_trailers_mono n m f ts r :
  (n <= m)%nat -> parse_trailers n f ts = Some r -> parse_trailers m f ts = Some r.
Proof. intro H. apply (parse_mono n m H). Qed.

Lemma starts_operand_app (a b : list token) :
  starts_operand a -> starts_operand (a ++ b).
Proof. destruct a as [| [] a]; simpl; tauto. Qed.

Lemma unparse_starts_operand (e : expr) (l : nat) : starts_operand (unparse l e).
Proof.
  revert l. induction e as [v | | o a IHa | o a IHa b IHb | f IHf | f IHf s a IHa];
    intro l; cbn [unparse];
    match goal with |- context [if ?c then _ else _] => destruct c end;
    try exact I.
  - now destruct o.
  - apply starts_operand_app, IHa.
  - apply starts_operand_app, IHf.
  - apply starts_operand_app, IHf.
Qed.

Lemma unparse_paren (e : expr) (l : nat) :
  (level_of e < l)%nat -> unparse l e = TLPar :: unparse 0 e ++ [TRPar].
Proof.
  intro H. apply Nat.ltb_lt in H.
  destruct e; cbn [unparse]; rewrite H; reflexivity.
Qed.

Lemma unparse_plain (e : expr) (l : nat) :
  (l <= level_of e)%nat -> unparse l e = unparse 0 e.
Proof.
  intro H. apply Nat.ltb_ge in H.
  destruct e; cbn [unparse]; rewrite H; reflexivity.
Qed.

Lemma unparse_length_pos (e : expr) (l : nat) : (1 <= List.length (unparse l e))%nat.
Proof.
  pose proof (unparse_starts_operand e l) as H.
  destruct (unparse l e); [contradiction | simpl; lia].
Qed.

Lemma no_factor_operator_no_trailer ts : no_factor_operator ts -> no_trailer ts.
Proof. destruct ts as [| [] ts]; simpl; tauto. Qed.

Lemma parse_trailers_stop (k : nat) (e : expr) (rest : list token) :
  no_trailer rest -> parse_trailers (S k) e rest = Some (e, rest).
Proof.
  intro H. rewrite parse_trailers_S. destruct rest as [| [] rest]; try reflexivity.
  contradiction.
Qed.

Lemma parse_term_rest_stop (k : nat) (e : expr) (rest : list token) :
  no_factor_operator rest -> parse_term_rest (S k) e rest = Some (e, rest).
Proof.
  intro H. rewrite parse_term_rest_S. destruct rest as [| [] rest]; try reflexivity;
    contradiction.
Qed.

Lemma rest_fuel_pos_sum k e rest res : parse_sum_rest k e rest = Some res -> (1 <= k)%nat.
Proof. destruct k; [discriminate | lia]. Qed.

Lemma rest_fuel_pos_term k e rest res : parse_term_rest k e rest = Some res -> (1 <= k)%nat.
Proof. destruct k; [discriminate | lia]. Qed.

Lemma rest_fuel_pos_trailers k e rest res : parse_trailers k e rest = Some res -> (1 <= k)%nat.
Proof. destruct k; [discriminate | lia]. Qed.

(** A group: [( sum )] followed by trailers. *)
Lemma parse_group (e : expr) (rest : list token) (k : nat) res (fuel : nat) :
  sum_ok e ->
  parse_trailers k e rest = Some res ->
  (k + 2 + fuel_of 0 e <= fuel)%nat ->
  parse_factor fuel (TLPar :: unparse 0 e ++ TRPar :: rest) = Some res.
Proof.
  intros Hs Hk Hf. destruct fuel as [| fuel]; [lia | ].
  rewrite parse_factor_S.
  pose proof (unparse_starts_operand e 0) as Hh.
  assert (Hp : parse_sum fuel (unparse 0 e ++ TRPar :: rest) = Some (e, TRPar :: rest)).
  { apply (Hs (TRPar :: rest) 1 _ fuel); [exact I | reflexivity | lia]. }
  destruct (unparse 0 e) as [| t ts] eqn:Eu; [contradiction | ].
  destruct t; try contradiction; cbn [List.app] in *; rewrite Hp;
    apply (parse_trailers_mono k); [lia | exact Hk | lia | exact Hk
                                   | lia | exact Hk | lia | exact Hk].
Qed.

Lemma app_cons_assoc {A : Type} (a : list A) (x : A) (b c : list A) :
  (a ++ x :: b) ++ c = a ++ x :: b ++ c.
Proof. now rewrite <- List.app_assoc. Qed.

Lemma sum_primary (e : expr) : (level_of e < 3)%nat -> sum_ok e -> primary_ok e.
Proof.
  intros Hl Hs rest k res fuel Hk Hf.
  rewrite (unparse_paren e 3 Hl). cbn [List.app]. rewrite <- List.app_assoc. cbn [List.app].
  apply (parse_group e rest k); [exact Hs | exact Hk | ].
  unfold fuel_of in *. rewrite (unparse_paren e 3 Hl) in Hf.
  cbn [List.length] in Hf. rewrite List.length_app in Hf. cbn [List.length] in Hf. lia.
Qed.

Lemma sum_factor (e : expr) : (level_of e < 2)%nat -> sum_ok e -> factor_ok e.
Proof.
  intros Hl Hs rest fuel Hr Hf.
  rewrite (unparse_paren e 2 Hl). cbn [List.app]. rewrite <- List.app_assoc. cbn [List.app].
  apply (parse_group e rest 1); [exact Hs | now apply parse_trailers_stop | ].
  unfold fuel_of in *. rewrite (unparse_paren e 2 Hl) in Hf.
  cbn [List.length] in Hf. rewrite List.length_app in Hf. cbn [List.length] in Hf. lia.
Qed.

Lemma primary_factor (e : expr) : level_of e = 3%nat -> primary_ok e -> factor_ok e.
Proof.
  intros Hl Hp rest fuel Hr Hf.
  rewrite (unparse_plain e 2) by lia. rewrite <- (unparse_plain e 3) by lia.
  apply (Hp rest 1); [now apply parse_trailers_stop | ].
  unfold fuel_of in *.
  rewrite (unparse_plain e 2) in Hf by lia. rewrite (unparse_plain e 3) by lia. lia.
Qed.

Lemma unparse_1_2 (e : expr) : level_of e <> 1%nat -> unparse 1 e = unparse 2 e.
Proof.
  intro H. destruct (Nat.lt_ge_cases (level_of e) 1) as [Hlt | Hge].
  - rewrite (unparse_paren e 1), (unparse_paren e 2) by lia. reflexivity.
  - rewrite (unparse_plain e 1), (unparse_plain e 2) by lia. reflexivity.
Qed.

Lemma factor_term (e : expr) : level_of e <> 1%nat -> factor_ok e -> term_ok e.
Proof.
  intros Hl Hfac rest k res fuel Hr Hk Hf.
  pose proof (rest_fuel_pos_term _ _ _ _ Hk) as Hk1.
  pose proof (unparse_length_pos e 2) as Hlen.
  unfold fuel_of in Hf. rewrite (unparse_1_2 e Hl) in *.
  destruct fuel as [| fuel]; [lia | ].
  rewrite parse_term_S, (Hfac rest fuel Hr) by (unfold fuel_of; lia).
  apply (parse_term_rest_mono k); [lia | exact Hk].
Qed.

Lemma term_sum (e : expr) : (1 <= level_of e)%nat -> term_ok e -> sum_ok e.
Proof.
  intros Hl Ht rest k res fuel Hr Hk Hf.
  pose proof (rest_fuel_pos_sum _ _ _ _ Hk) as Hk1.
  pose proof (unparse_length_pos e 1) as Hlen.
  unfold fuel_of in Hf. rewrite <- (unparse_plain e 1 Hl) in *.
  destruct fuel as [| fuel]; [lia | ].
  rewrite parse_sum_S.
  rewrite (Ht rest 1 (e, rest) fuel).
  - apply (parse_sum_rest_mono k); [lia | exact Hk].
  - now apply no_factor_operator_no_trailer.
  - now apply parse_term_rest_stop.
  - unfold fuel_of. lia.
Qed.

Lemma parse_sum_rest_stop (k : nat) (e : expr) (rest : list token) :
  match rest with TPlus :: _ | TMinus :: _ => False | _ => True end ->
  parse_sum_rest (S k) e rest = Some (e, rest).
Proof.
  intro H. rewrite parse_sum_rest_S. destruct rest as [| [] rest]; try reflexivity;
    contradiction.
Qed.

Lemma all_ok_primary (e : expr) : level_of e = 3%nat -> primary_ok e -> all_ok e.
Proof.
  intros Hl Hp. pose proof (primary_factor e Hl Hp) as Hf.
  assert (Ht : term_ok e) by (apply factor_term; [lia | exact Hf]).
  repeat split; auto. apply term_sum; [lia | exact Ht].
Qed.

Lemma unparse_roundtrip_ok (e : expr) : all_ok e.
Proof.
  induction e as [v | | o a IHa | o a IHa b IHb | f IHf | f IHf s a IHa].
  - (* number *)
    apply all_ok_primary; [reflexivity | ].
    intros rest k res fuel Hk Hf. unfold fuel_of in Hf. cbn in Hf.
    destruct fuel as [| fuel]; [lia | ].
    cbn [unparse level_of Nat.ltb Nat.leb List.app]. rewrite parse_factor_S.
    apply (parse_trailers_mono k); [lia | exact Hk].
  - (* empty tuple *)
    apply all_ok_primary; [reflexivity | ].
    intros rest k res fuel Hk Hf. unfold fuel_of in Hf. cbn in Hf.
    destruct fuel as [| fuel]; [lia | ].
    cbn [unparse level_of Nat.ltb Nat.leb List.app]. rewrite parse_factor_S.
    apply (parse_trailers_mono k); [lia | exact Hk].
  - (* unary operator *)
    destruct IHa as (_ & Hfa & _ & _).
    assert (Hf : factor_ok (EUn o a)).
    { intros rest fuel Hr Hf. unfold fuel_of in Hf.
      rewrite (unparse_plain (EUn o a) 2) in * by (cbn; lia).
      cbn [unparse level_of Nat.ltb Nat.leb List.app] in *. cbn [List.length] in Hf.
      destruct fuel as [| fuel]; [lia | ].
      rewrite parse_factor_S.
      pose proof (Hfa rest fuel Hr) as Hp. unfold fuel_of in Hp.
      destruct o; cbn [unop_token]; rewrite Hp by lia; reflexivity. }
    assert (Ht : term_ok (EUn o a)) by (apply factor_term; [cbn; lia | exact Hf]).
    assert (Hs : sum_ok (EUn o a)) by (apply term_sum; [cbn; lia | exact Ht]).
    repeat split; auto. apply sum_primary; [cbn; lia | exact Hs].
  - (* binary operator *)
    destruct IHa as (_ & _ & Hta & Hsa). destruct IHb as (_ & Hfb & Htb & _).
    assert (Hs : sum_ok (EBin o a b)).
    { destruct o.
      1, 2:
        (intros rest k res fuel Hr Hk Hf;
         pose proof (rest_fuel_pos_sum _ _ _ _ Hk) as Hk1;
         unfold fuel_of in Hf;
         cbn [unparse level_of Nat.ltb Nat.leb binop_level binop_token] in *;
         rewrite List.length_app in Hf; cbn [List.length] in Hf;
         rewrite app_cons_assoc;
         apply (Hsa _ (S (k + 1 + fuel_of 1 b)));
         [ exact I
         | rewrite parse_sum_rest_S;
           rewrite (Htb rest 1 (b, rest) (k + 1 + fuel_of 1 b)%nat);
           [ apply (parse_sum_rest_mono k); [lia | exact Hk]
           | now apply no_factor_operator_no_trailer
           | now apply parse_term_rest_stop
           | lia ]
         | unfold fuel_of; lia ]).
      1, 2:
        (apply term_sum; [cbn; lia | ];
         intros rest k res fuel Hr Hk Hf;
         pose proof (rest_fuel_pos_term _ _ _ _ Hk) as Hk1;
         unfold fuel_of in Hf;
         cbn [unparse level_of Nat.ltb Nat.leb binop_level binop_token] in *;
         rewrite List.length_app in Hf; cbn [List.length] in Hf;
         rewrite app_cons_assoc;
         apply (Hta _ (S (k + 1 + fuel_of 2 b)));
         [ exact I
         | rewrite parse_term_rest_S;
           rewrite (Hfb rest (k + 1 + fuel_of 2 b)%nat Hr) by lia;
           apply (parse_term_rest_mono k); [lia | exact Hk]
         | unfold fuel_of; lia ]). }
    assert (Hp : primary_ok (EBin o a b))
      by (apply sum_primary; [destruct o; cbn; lia | exact Hs]).
    assert (Hf : factor_ok (EBin o a b))
      by (apply sum_factor; [destruct o; cbn; lia | exact Hs]).
    repeat split; auto.
    destruct o.
    1, 2: (apply factor_term; [cbn; lia | exact Hf]).
    1, 2:
      (intros rest k res fuel Hr Hk Hf';
       pose proof (rest_fuel_pos_term _ _ _ _ Hk) as Hk1;
       unfold fuel_of in Hf';
       cbn [unparse level_of Nat.ltb Nat.leb binop_level binop_token] in *;
       rewrite List.length_app in Hf'; cbn [List.length] in Hf';
       rewrite app_cons_assoc;
       apply (Hta _ (S (k + 1 + fuel_of 2 b)));
       [ exact I
       | rewrite parse_term_rest_S;
         rewrite (Hfb rest (k + 1 + fuel_of 2 b)%nat Hr) by lia;
         apply (parse_term_rest_mono k); [lia | exact Hk]
       | unfold fuel_of; lia ]).
  - (* call without argument *)
    destruct IHf as (Hpf & _).
    apply all_ok_primary; [reflexivity | ].
    intros rest k res fuel Hk Hf. unfold fuel_of in Hf.
    rewrite (unparse_plain (ECall0 f) 3) in * by (cbn; lia).
    cbn [unparse level_of Nat.ltb Nat.leb] in *.
    rewrite List.length_app in Hf. cbn [List.length] in Hf.
    rewrite <- List.app_assoc. cbn [List.app].
    apply (Hpf _ (S k)); [rewrite parse_trailers_S; exact Hk | unfold fuel_of; lia].
  - (* call with an argument *)
    destruct IHf as (Hpf & _). destruct IHa as (_ & _ & _ & Hsa).
    apply all_ok_primary; [reflexivity | ].
    intros rest k res fuel Hk Hf. unfold fuel_of in Hf.
    rewrite (unparse_plain (ECall1 f s a) 3) in * by (cbn; lia).
    cbn [unparse level_of Nat.ltb Nat.leb] in *.
    rewrite !List.length_app in Hf. cbn [List.length] in Hf.
    rewrite List.length_app in Hf. cbn [List.length] in Hf.
    rewrite <- List.app_assoc. cbn [List.app]. rewrite <- !List.app_assoc. cbn [List.app].
    assert (Hp : parse_sum (k + 1 + fuel_of 0 a) (unparse 0 a ++ TRPar :: rest)
                 = Some (a, TRPar :: rest)).
    { apply (Hsa (TRPar :: rest) 1); [exact I | reflexivity | lia]. }
    assert (Hk' : parse_trailers (k + 1 + fuel_of 0 a) (ECall1 f s a) rest = Some res)
      by (apply (parse_trailers_mono k); [lia | exact Hk]).
    apply (Hpf _ (S (k + 1 + fuel_of 0 a))).
    + rewrite parse_trailers_S. destruct s; cbn [List.app].
      * rewrite Hp. exact Hk'.
      * pose proof (unparse_starts_operand a 0) as Hh.
        destruct (unparse 0 a) as [| t ts] eqn:Eu; [contradiction | ].
        destruct t; try contradiction; cbn [List.app] in *; rewrite Hp; exact Hk'.
    + unfold fuel_of in *.
      destruct s; cbn [List.app List.length] in Hf; rewrite ?List.length_app in Hf;
        cbn [List.length] in Hf; lia.
Qed.

(** The parser rebuilds every tree from its tokens. *)
Lemma parse_unparse (e : expr) : parse_tokens (unparse 0 e) = Some e.
Proof.
  unfold parse_tokens, parse_fuel.
  destruct (unparse_roundtrip_ok e) as (_ & _ & _ & Hs).
  pose proof (Hs [] 1 (e, []) (6 * List.length (unparse 0 e) + 6)%nat) as H.
  rewrite List.app_nil_r in H. rewrite H; [reflexivity | exact I | reflexivity | ].
  unfold fuel_of. lia.
Qed.

Local Open Scope string_scope.
Local Open Scope Z_scope.

(** ** Texts that conform to the grammar *)

Lemma evaluate_syntax_error (st : State) :
  strip_trailing_operators (display_text st) <> "" ->
  is_safe_expression (strip_trailing_operators (display_text st)) = true ->
  py_parse (strip_trailing_operators (display_text st)) = None ->
  evaluate_expression st = Returns (mkState "Error" (last_result st) true).
Proof.
  intros Hne Hsafe Hparse.
  rewrite (evaluate_raise st SyntaxError Hne Hsafe); [reflexivity | ].
  unfold py_eval. now rewrite Hparse.
Qed.

Lemma evaluate_value (st : State) (t : expr) (v : pyval) (i : Z) (text : string) :
  strip_trailing_operators (display_text st) <> "" ->
  is_safe_expression (strip_trailing_operators (display_text st)) = true ->
  py_parse (strip_trailing_operators (display_text st)) = Some t ->
  eval_expr t = Ok v ->
  py_int v = Ok i ->
  (if py_eq v (VInt i) then py_str (VInt i) else py_str v) = Ok text ->
  evaluate_expression st = Returns (mkState text v true).
Proof.
  intros Hne Hsafe Hparse Heval Hint Htext.
  unfold evaluate_expression.
  apply String.eqb_neq in Hne. rewrite Hne.
  unfold try_body, py_eval. rewrite Hsafe, Hparse, Heval. cbn [negb].
  rewrite (py_int_number v i Hint).
  unfold pos_inf, neg_inf. rewrite !(py_int_not_inf v i _ Hint).
  cbn [orb]. now rewrite Hint, Htext.
Qed.

(** C3, as the code has it.  A non-empty text that conforms to the grammar
    of the specification passes the validation.  A validated text that the
    parser of [eval] rejects shows ["Error"]; one that it parses to a tree
    whose value is a finite number shows that value, formatted.  The parser
    gives [*] and [/] precedence over [+] and [-], groups operators of one
    precedence from the left and lets parentheses override: it rebuilds
    every tree from the tokens that write it with the parentheses these
    rules require.  ["1+5"] shows ["6"] and ["12+3*4"] shows ["24"]. *)
Theorem conforming_text_is_validated_and_parsed :
  (forall s : string,
     s <> "" -> conforms_to_grammar s = true -> is_safe_expression s = true) /\
  (forall st : State,
     strip_trailing_operators (display_text st) <> "" ->
     is_safe_expression (strip_trailing_operators (display_text st)) = true ->
     py_parse (strip_trailing_operators (display_text st)) = None ->
     evaluate_expression st = Returns (mkState "Error" (last_result st) true)) /\
  (forall (st : State) (t : expr) (v : pyval) (i : Z) (text : string),
     strip_trailing_operators (display_text st) <> "" ->
     is_safe_expression (strip_trailing_operators (display_text st)) = true ->
     py_parse (strip_trailing_operators (display_text st)) = Some t ->
     eval_expr t = Ok v ->
     py_int v = Ok i ->
     (if py_eq v (VInt i) then py_str (VInt i) else py_str v) = Ok text ->
     evaluate_expression st = Returns (mkState text v true)) /\
  (forall e : expr, parse_tokens (unparse 0 e) = Some e) /\
  (forall lr ne,
     evaluate_expression (mkState "1+5" lr ne)
     = Returns (mkState "6" (VInt 6) true)) /\
  (py_parse "12+3*4"
   = Some (EBin Add (ENum (VInt 12)) (EBin Mul (ENum (VInt 3)) (ENum (VInt 4)))) /\
   forall lr ne,
     evaluate_expression (mkState "12+3*4" lr ne)
     = Returns (mkState "24" (VInt 24) true)).
Proof.
  split; [exact conforming_is_safe | ].
  split; [exact evaluate_syntax_error | ].
  split; [exact evaluate_value | ].
  split; [exact parse_unparse | ].
  split; [intros lr ne; vm_compute; reflexivity | ].
  split; [vm_compute; reflexivity | intros lr ne; vm_compute; reflexivity].
Qed.

Lemma conforming_text_is_validated_and_parsed_witness :
  conforms_to_grammar "(1.5 + 2)*3" = true /\
  is_safe_expression "(1.5 + 2)*3" = true.
Proof.
  split; [reflexivity | ].
  apply (proj1 conforming_text_is_validated_and_parsed "(1.5 + 2)*3");
    [discriminate | reflexivity].
Defined.

(** C3 as the specification states it fails at its own example: ["1+05"]
    conforms to the grammar and passes the validation, but an integer
    literal with a leading zero is a syntax error for [eval], and
    [1 + 0 5 =] shows ["Error"], not 6. *)
Lemma leading_zero_is_a_syntax_error :
  conforms_to_grammar "1+05" = true /\
  is_safe_expression "1+05" = true /\
  py_eval "1+05" = Raise SyntaxError /\
  run initial_state [Digit D1; Operator Plus; Digit D0; Digit D5; Equals]
  = Returns (mkState "Error" (VInt 0) true).
Proof. repeat split. Qed.

(** ** Exceptions that leave [process_input] *)

(** C2, at the input where the code departs from it: a one followed by 400
    zeros, divided by three.  The quotient of the two integers is too large
    for a float, [eval] raises [OverflowError], neither [except] clause
    matches, and the exception leaves [evaluate_expression] and
    [process_input] with the display as it was. *)
Theorem overflow_error_escapes :
  run initial_state
      ([Digit D1] ++ repeat (Digit D0) 400 ++ [Operator Divide; Digit D3; Equals])
  = Raises OverflowError
      (mkState ("1" ++ zeros 400 ++ "/3") (VInt 0) false).
Proof. vm_compute. reflexivity. Qed.

(** ** Decimal points *)

Lemma search_multiple_dots_cons (c : ascii) (t : string) :
  search_multiple_dots (String c t) =
  Ascii.eqb c "." && dot_after_digits t || search_multiple_dots t.
Proof. reflexivity. Qed.

Lemma str_in_dot (s : string) : str_in "." s = negb (dot_free s).
Proof.
  unfold dot_free. induction s as [| c s IH]; [reflexivity | ].
  cbn [str_in all_chars]. rewrite IH.
  change "."%string with (char ".") at 1. rewrite prefix_char.
  rewrite negb_andb, negb_involutive.
  destruct (Ascii.eqb "." c) eqn:E.
  - apply Ascii.eqb_eq in E. subst c. reflexivity.
  - destruct (Ascii.eqb c ".") eqn:E'; [ | reflexivity].
    apply Ascii.eqb_eq in E'. subst c. discriminate.
Qed.

Lemma dot_free_app (a b : string) :
  dot_free (a ++ b) = dot_free a && dot_free b.
Proof. apply all_chars_app. Qed.

Lemma dot_after_digits_app_char (t : string) (c : ascii) :
  dot_after_digits (t ++ char c) =
  dot_after_digits t || all_chars is_ascii_digit t && Ascii.eqb c ".".
Proof.
  unfold dot_after_digits.
  induction t as [| x t IH].
  - cbn. unfold re_digit. destruct (is_ascii_digit c) eqn:Ed; [ | reflexivity].
    destruct (Ascii.eqb c ".") eqn:E; [ | reflexivity].
    apply Ascii.eqb_eq in E. subst c. discriminate.
  - change ((String x t ++ char c)%string) with (String x (t ++ char c)).
    cbn [skip_digits all_chars]. unfold re_digit.
    destruct (is_ascii_digit x); [exact IH | ].
    cbn [andb]. now rewrite orb_false_r.
Qed.

(** Appending a character makes two dots of one number exactly when a dot
    is appended after a dot and digits. *)
Lemma search_multiple_dots_app_char (s : string) (c : ascii) :
  search_multiple_dots (s ++ char c) =
  search_multiple_dots s || ends_in_dot_digits s && Ascii.eqb c ".".
Proof.
  induction s as [| x s IH]; [cbn; now destruct (Ascii.eqb c ".") | ].
  change ((String x s ++ char c)%string) with (String x (s ++ char c)).
  rewrite !search_multiple_dots_cons, IH, dot_after_digits_app_char.
  cbn [ends_in_dot_digits].
  destruct (Ascii.eqb x "."), (dot_after_digits s), (search_multiple_dots s),
    (all_chars is_ascii_digit s), (ends_in_dot_digits s), (Ascii.eqb c ".");
    reflexivity.
Qed.

Lemma search_multiple_dots_drop_last (s : string) :
  search_multiple_dots s = false -> search_multiple_dots (drop_last s) = false.
Proof.
  destruct (last_char s) as [c | ] eqn:E.
  - rewrite (last_char_split s c E) at 1.
    rewrite search_multiple_dots_app_char. intro H.
    now apply orb_false_iff in H.
  - apply last_char_none in E. now subst.
Qed.

Lemma last_cons_cons {A : Type} (x y : A) (l : list A) (d : A) :
  last (x :: y :: l) d = last (y :: l) d.
Proof. reflexivity. Qed.

Lemma split_operators_from_nonempty (piece s : string) :
  split_operators_from piece s <> [].
Proof.
  revert piece. induction s as [| c s IH]; intro piece; cbn [split_operators_from].
  - discriminate.
  - destruct (is_operator_char c); [discriminate | apply IH].
Qed.

(** The last piece that [re.split] gives has a dot when the text ends with
    a dot and digits, or when the piece under way has one and no operator
    follows. *)
Lemma last_piece_has_dot (s piece : string) :
  ends_in_dot_digits s = true \/ (dot_free piece = false /\ operator_free s = true) ->
  dot_free (last (split_operators_from piece s) "") = false.
Proof.
  revert piece. induction s as [| c s IH]; intros piece H.
  - cbn. destruct H as [H | [H _]]; [discriminate | exact H].
  - cbn [split_operators_from]. destruct (is_operator_char c) eqn:Ec.
    + destruct (split_operators_from "" s) as [| y l] eqn:Es;
        [now elim (split_operators_from_nonempty "" s) | ].
      rewrite !last_cons_cons. rewrite <- Es. apply IH. left.
      destruct H as [H | [_ H]].
      * cbn [ends_in_dot_digits] in H.
        destruct (Ascii.eqb c ".") eqn:E; [ | exact H].
        apply Ascii.eqb_eq in E. subst c. discriminate.
      * unfold operator_free in H. cbn [all_chars] in H. now rewrite Ec in H.
    + apply IH. destruct H as [H | [Hp Hs]].
      * cbn [ends_in_dot_digits] in H. apply orb_true_iff in H.
        destruct H as [H | H]; [ | now left].
        apply andb_true_iff in H. destruct H as [Hc Hd]. right. split.
        -- rewrite dot_free_app, andb_false_iff. right.
           unfold dot_free. cbn. now rewrite Hc.
        -- now apply digits_operator_free.
      * right. split.
        -- rewrite dot_free_app, Hp. reflexivity.
        -- unfold operator_free in *. cbn [all_chars] in Hs.
           now apply andb_true_iff in Hs.
Qed.

Lemma dot_free_search (s : string) :
  dot_free s = true -> search_multiple_dots s = false.
Proof.
  unfold dot_free. induction s as [| c s IH]; [reflexivity | ].
  cbn [all_chars]. intro H. apply andb_true_iff in H. destruct H as [Hc Hs].
  apply negb_true_iff in Hc.
  now rewrite search_multiple_dots_cons, Hc, IH.
Qed.

Lemma dot_free_dot_after_digits (s : string) :
  dot_free s = true -> dot_after_digits s = false.
Proof.
  unfold dot_free, dot_after_digits. induction s as [| c s IH]; [reflexivity | ].
  cbn [all_chars skip_digits]. intro H.
  apply andb_true_iff in H. destruct H as [Hc Hs]. apply negb_true_iff in Hc.
  destruct (re_digit c); [now apply IH | exact Hc].
Qed.

Lemma search_multiple_dots_app_free (a b : string) :
  dot_free a = true ->
  search_multiple_dots (a ++ b) = search_multiple_dots b.
Proof.
  unfold dot_free. induction a as [| c a IH]; [reflexivity | ].
  cbn [all_chars]. intro H. apply andb_true_iff in H. destruct H as [Hc Ha].
  apply negb_true_iff in Hc.
  change ((String c a ++ b)%string) with (String c (a ++ b)).
  now rewrite search_multiple_dots_cons, Hc, IH.
Qed.

Lemma one_dot_search (s : string) : one_dot s -> search_multiple_dots s = false.
Proof.
  intros [H | (a & b & -> & Ha & Hb)]; [now apply dot_free_search | ].
  rewrite (search_multiple_dots_app_free a _ Ha), search_multiple_dots_cons.
  now rewrite (dot_free_dot_after_digits b Hb), (dot_free_search b Hb).
Qed.

Lemma one_dot_intro (a b : string) :
  dot_free a = true -> dot_free b = true -> one_dot (a ++ String "." b).
Proof. intros Ha Hb. right. now exists a, b. Qed.

Lemma one_dot_prefix (p s : string) :
  dot_free p = true -> one_dot s -> one_dot (p ++ s).
Proof.
  intros Hp [H | (a & b & -> & Ha & Hb)].
  - left. now rewrite dot_free_app, Hp, H.
  - right. exists (p ++ a)%string, b. rewrite app_assoc_str.
    repeat split; auto. now rewrite dot_free_app, Hp, Ha.
Qed.

Lemma digits_dot_free (s : string) :
  all_chars is_ascii_digit s = true -> dot_free s = true.
Proof. apply all_chars_impl, digit_not_dot. Qed.

Lemma int_text_dot_free (z : Z) : dot_free (int_text z) = true.
Proof.
  unfold int_text. rewrite dot_free_app. apply andb_true_iff. split.
  - now destruct (z <? 0).
  - apply digits_dot_free, digits_of_N_digits.
Qed.

Lemma layout_one_dot (ds : string) (decpt : Z) :
  all_chars is_ascii_digit ds = true -> one_dot (layout ds decpt).
Proof.
  intro Hd. pose proof (digits_dot_free ds Hd) as Hf.
  assert (Ht : forall n, dot_free (str_take n ds) = true)
    by (intro n; apply all_chars_substring, Hf).
  assert (Hr : forall n, dot_free (str_drop n ds) = true)
    by (intro n; apply all_chars_substring, Hf).
  assert (He : dot_free
                 ("e" ++ (if decpt - 1 <? 0 then "-" else "+")
                  ++ (if Z.abs (decpt - 1) <? 10 then "0" else "")
                  ++ digits_of_N (Z.abs_N (decpt - 1))) = true).
  { rewrite !dot_free_app.
    rewrite (digits_dot_free _ (digits_of_N_digits _)).
    now destruct (decpt - 1 <? 0), (Z.abs (decpt - 1) <? 10). }
  unfold layout.
  destruct ((16 <? decpt) || (decpt <? -3)).
  - destruct (1 <? Z.of_nat (String.length ds)).
    + rewrite app_assoc_str. change ("." ++ ?x)%string with (String "." x).
      apply one_dot_intro; [apply Ht | ].
      rewrite dot_free_app, Hr. exact He.
    + left. rewrite dot_free_app, Ht. exact He.
  - destruct (decpt <=? 0); [ | destruct (Z.of_nat (String.length ds) <=? decpt)].
    + change ("0." ++ ?x)%string with ("0" ++ String "." x)%string.
      apply one_dot_intro; [reflexivity | ].
      rewrite dot_free_app, Hf, andb_true_r. now apply all_chars_zeros.
    + rewrite <- app_assoc_str. change ".0"%string with (String "." "0").
      apply one_dot_intro; [ | reflexivity].
      rewrite dot_free_app, Hf. now apply all_chars_zeros.
    + change ("." ++ ?x)%string with (String "." x).
      apply one_dot_intro; [apply Ht | apply Hr].
Qed.

Lemma str_float_one_dot (f : float) : one_dot (str_float f).
Proof.
  destruct f as [s | s | | s m e].
  - destruct s; [exact (one_dot_intro "-0" "0" eq_refl eq_refl)
                | exact (one_dot_intro "0" "0" eq_refl eq_refl)].
  - left. now destruct s.
  - now left.
  - unfold str_float. pose proof (shortest_repr_digits m e) as H.
    destruct (shortest_repr m e) as [ds decpt]. cbn [fst] in H.
    apply one_dot_prefix; [now destruct s | now apply layout_one_dot].
Qed.

(** How [evaluate_expression] returns: with ["0"] for a display of
    operators only, with ["Error"] from the validation, with a marker from
    an [except] clause, or with the text of a number that [int] accepts. *)
Lemma evaluate_expression_returns (st st' : State) :
  evaluate_expression st = Returns st' ->
  st' = set_display_text st "0" \/
  st' = set_display_text st "Error" \/
  st' = mkState "Error: Div/0" (last_result st) true \/
  st' = mkState "Error" (last_result st) true \/
  exists (v : pyval) (i : Z) (text : string),
    py_int v = Ok i /\
    (if py_eq v (VInt i) then py_str (VInt i) else py_str v) = Ok text /\
    st' = mkState text v true.
Proof.
  assert (Hh : forall e st0, last_result st0 = last_result st ->
               handle e st0 = Returns st' ->
               st' = mkState "Error: Div/0" (last_result st) true \/
               st' = mkState "Error" (last_result st) true).
  { intros e st0 Hl. unfold handle. rewrite Hl.
    destruct (exn_isinstance e ZeroDivisionError); [intros [= <-]; auto | ].
    destruct (exn_isinstance e SyntaxError || exn_isinstance e NameError
              || exn_isinstance e TypeError || exn_isinstance e ValueError);
      [intros [= <-]; auto | discriminate]. }
  unfold evaluate_expression.
  destruct (String.eqb (strip_trailing_operators (display_text st)) "");
    [intros [= <-]; auto | ].
  unfold try_body.
  destruct (is_safe_expression _); cbn [negb]; [ | intros [= <-]; auto].
  destruct (py_eval _) as [result | e];
    [ | intro H; apply Hh in H; [tauto | reflexivity]].
  destruct (is_number result); [ | intros [= <-]; auto].
  destruct (py_eq result (VFloat pos_inf) || py_eq result (VFloat neg_inf));
    [intro H; apply Hh in H; [tauto | reflexivity] | ].
  destruct (py_int result) as [i | e] eqn:Ei;
    [ | intro H; apply Hh in H; [tauto | reflexivity]].
  destruct (if py_eq result (VInt i) then py_str (VInt i) else py_str result)
    as [text | e] eqn:Et; [ | intro H; apply Hh in H; [tauto | reflexivity]].
  intros [= <-]. right; right; right; right. now exists result, i, text.
Qed.

Lemma formatted_one_dot (v : pyval) (i : Z) (text : string) :
  py_int v = Ok i ->
  (if py_eq v (VInt i) then py_str (VInt i) else py_str v) = Ok text ->
  one_dot text.
Proof.
  intros Hi Ht.
  assert (G : forall z, str_int z = Ok text -> one_dot text).
  { intros z H. apply str_int_text in H. subst. left. apply int_text_dot_free. }
  destruct (py_eq v (VInt i)); [exact (G i Ht) | ].
  destruct v as [z | f | ]; cbn [py_str] in Ht; [exact (G z Ht) | | discriminate].
  injection Ht as <-. apply str_float_one_dot.
Qed.

Lemma evaluate_expression_no_multiple_dots (st st' : State) :
  search_multiple_dots (display_text st) = false ->
  evaluate_expression st = Returns st' ->
  search_multiple_dots (display_text st') = false.
Proof.
  intros _ H. apply evaluate_expression_returns in H.
  destruct H as [-> | [-> | [-> | [-> | (v & i & text & Hi & Ht & ->)]]]];
    try reflexivity.
  cbn [display_text]. exact (one_dot_search _ (formatted_one_dot v i text Hi Ht)).
Qed.

Lemma digit_text_not_dot (d : digit) :
  exists c, digit_text d = char c /\ Ascii.eqb c "." = false.
Proof. destruct d; eexists; split; reflexivity. Qed.

Lemma operator_text_not_dot (o : operator) :
  exists c, operator_text o = char c /\ Ascii.eqb c "." = false.
Proof. destruct o; eexists; split; reflexivity. Qed.

(** One press keeps the display free of two dots in one number. *)
Lemma apply_no_multiple_dots (st st' : State) (t : Token) :
  search_multiple_dots (display_text st) = false ->
  apply st t = Returns st' ->
  search_multiple_dots (display_text st') = false.
Proof.
  intro Hs. destruct t as [d | | o | | | ].
  - rewrite process_digit. intros [= <-]. cbn [display_text].
    destruct (digit_text_not_dot d) as [c [-> Hc]].
    destruct (new_expression st || String.eqb (display_text st) "0").
    + cbn. now rewrite Hc.
    + now rewrite search_multiple_dots_app_char, Hs, Hc, andb_false_r.
  - rewrite process_decimal_point. intros [= <-].
    destruct (new_expression st); [reflexivity | ].
    destruct (str_in "." (last (split_operators (display_text st)) "")) eqn:El;
      [exact Hs | ].
    cbn [display_text]. change "."%string with (char ".").
    rewrite search_multiple_dots_app_char, Hs. cbn [orb].
    rewrite andb_true_r.
    destruct (ends_in_dot_digits (display_text st)) eqn:Ee; [ | reflexivity].
    rewrite str_in_dot in El. unfold split_operators in El.
    rewrite (last_piece_has_dot (display_text st) "") in El by now left.
    discriminate.
  - rewrite process_operator. intros [= <-]. cbn [display_text].
    destruct (operator_text_not_dot o) as [c [-> Hc]].
    rewrite search_multiple_dots_app_char, Hc, andb_false_r, orb_false_r.
    destruct (ends_with_operator (display_text st));
      [now apply search_multiple_dots_drop_last | exact Hs].
  - rewrite process_clear. intros [= <-]. now destruct (new_expression st).
  - rewrite process_delete. intros [= <-].
    destruct (new_expression st); [exact Hs | ].
    cbn [set_display_text display_text].
    destruct (1 <? String.length (display_text st))%nat;
      [now apply search_multiple_dots_drop_last | reflexivity].
  - rewrite process_equals.
    destruct (new_expression st); [now intros [= <-] | ].
    now apply evaluate_expression_no_multiple_dots.
Qed.

(** X1.  After any sequence of button presses the display is never empty,
    never has two operators side by side, and never has two decimal points
    in one number: neither [re.search] of [is_safe_expression] can find a
    match in a display that the buttons produced. *)
Theorem reachable_display_invariant (st : State) :
  reachable st ->
  display_text st <> "" /\
  search_consecutive_operators (display_text st) = false /\
  search_multiple_dots (display_text st) = false.
Proof.
  intro Hr. destruct (reachable_well_formed st Hr) as [H1 H2].
  split; [exact H1 | split; [exact H2 | ]].
  induction Hr as [| st st' t Hr IH Ha]; [reflexivity | ].
  apply (apply_no_multiple_dots st st' t); [ | exact Ha].
  apply IH; apply (reachable_well_formed st Hr).
Qed.

Lemma reachable_display_invariant_witness :
  reachable (mkState "1.5+2.*" (VInt 0) false) /\
  "1.5+2.*" <> "" /\
  search_consecutive_operators "1.5+2.*" = false /\
  search_multiple_dots "1.5+2.*" = false.
Proof.
  assert (Hr : reachable (mkState "1.5+2.*" (VInt 0) false)).
  { apply (run_reachable
             [Digit D1; DecimalPoint; Digit D5; Operator Plus; Digit D2;
              DecimalPoint; DecimalPoint; Operator Minus; Operator Times]
             initial_state);
      [apply reachable_initial | vm_compute; reflexivity]. }
  split; [exact Hr | ].
  exact (reachable_display_invariant (mkState "1.5+2.*" (VInt 0) false) Hr).
Defined.

(** ** The stored result *)

Lemma py_int_finite (v : pyval) (i : Z) :
  py_int v = Ok i -> is_finite_number v = true.
Proof.
  destruct v as [z | f | ]; [reflexivity | | discriminate].
  destruct f; [reflexivity | discriminate | discriminate | reflexivity].
Qed.

(** What one press does to [last_result]: nothing, or Clear resets it, or
    Equals stores the value it shows. *)
Lemma apply_last_result (st st' : State) (t : Token) :
  apply st t = Returns st' ->
  last_result st' = last_result st \/
  new_expression st = false /\
  (t = Clear /\ st' = mkState "0" (VInt 0) true \/
   t = Equals /\
   exists text : string,
     format_result (last_result st') = Ok text /\
     st' = mkState text (last_result st') true).
Proof.
  destruct t as [d | | o | | | ].
  - rewrite process_digit. intros [= <-]. now left.
  - rewrite process_decimal_point. intros [= <-].
    left. destruct (new_expression st); [reflexivity | ].
    now destruct (str_in "." (last (split_operators (display_text st)) "")).
  - rewrite process_operator. intros [= <-]. now left.
  - rewrite process_clear. intros [= <-].
    destruct (new_expression st); [now left | right; auto].
  - rewrite process_delete. intros [= <-].
    left. now destruct (new_expression st).
  - rewrite process_equals.
    destruct (new_expression st); [intros [= <-]; now left | ].
    intro H. apply evaluate_expression_returns in H.
    destruct H as [-> | [-> | [-> | [-> | (v & i & text & Hi & Ht & ->)]]]];
      try (now left).
    right. split; [reflexivity | right]. split; [reflexivity | ].
    exists text. cbn [last_result]. unfold format_result. now rewrite Hi.
Qed.

Lemma format_result_finite (v : pyval) (text : string) :
  format_result v = Ok text -> is_finite_number v = true.
Proof.
  unfold format_result. destruct (py_int v) as [i | e] eqn:E; [ | discriminate].
  intros _. exact (py_int_finite v i E).
Qed.

(** X2.  One button press changes [last_result] only outside a fresh
    start, and only in two ways: Clear resets it to [0] with the display
    ["0"], or Equals stores the value whose formatted text it puts on the
    display.  Either way [new_expression] is set afterwards. *)
Theorem last_result_changes_on_clear_or_result (st st' : State) (t : Token) :
  apply st t = Returns st' ->
  last_result st' <> last_result st ->
  new_expression st = false /\ new_expression st' = true /\
  (t = Clear /\ st' = mkState "0" (VInt 0) true \/
   t = Equals /\ format_result (last_result st') = Ok (display_text st')).
Proof.
  intros Ha Hne.
  destruct (apply_last_result st st' t Ha) as [H | [Hf [[Ht Hs] | [Ht (text & Hx & Hs)]]]].
  - contradiction.
  - subst st'. auto.
  - rewrite Hs. cbn [new_expression display_text last_result].
    split; [exact Hf | split; [reflexivity | right]]. split; [exact Ht | ].
    rewrite Hs in Hx. exact Hx.
Qed.

Lemma last_result_changes_on_clear_or_result_witness :
  apply (mkState "2*3.5" (VInt 0) false) Equals
  = Returns (mkState "7" (VFloat (float_of_Z 7)) true) /\
  format_result (VFloat (float_of_Z 7)) = Ok "7".
Proof.
  assert (Ha : apply (mkState "2*3.5" (VInt 0) false) Equals
               = Returns (mkState "7" (VFloat (float_of_Z 7)) true))
    by (vm_compute; reflexivity).
  split; [exact Ha | ].
  destruct (last_result_changes_on_clear_or_result _ _ _ Ha) as (_ & _ & H).
  - discriminate.
  - destruct H as [[H _] | [_ H]]; [discriminate | exact H].
Defined.

(** X3.  After any sequence of button presses [last_result] is an [int]
    or a finite [float]: an infinite result leaves [evaluate_expression] by
    the unbound [formatted_result] before the assignment, and [int] refuses
    a NaN. *)
Theorem reachable_last_result_finite (st : State) :
  reachable st -> is_finite_number (last_result st) = true.
Proof.
  induction 1 as [| st st' t Hr IH Ha]; [reflexivity | ].
  destruct (apply_last_result st st' t Ha) as [H | [_ [[_ ->] | [_ (text & Hx & _)]]]].
  - now rewrite H.
  - reflexivity.
  - exact (format_result_finite _ text Hx).
Qed.

Lemma reachable_last_result_finite_witness :
  reachable (mkState "7" (VFloat (float_of_Z 7)) true) /\
  is_finite_number (VFloat (float_of_Z 7)) = true.
Proof.
  assert (Hr : reachable (mkState "7" (VFloat (float_of_Z 7)) true)).
  { apply (run_reachable
             [Digit D2; Operator Times; Digit D3; DecimalPoint; Digit D5; Equals]
             initial_state);
      [apply reachable_initial | vm_compute; reflexivity]. }
  split; [exact Hr | ].
  exact (reachable_last_result_finite (mkState "7" (VFloat (float_of_Z 7)) true) Hr).
Defined.

(** X4.  After any sequence of button presses, while [new_expression] is
    set the display shows ["0"], one of the two error markers, or the
    formatted text of [last_result]. *)
Theorem reachable_fresh_display (st : State) :
  reachable st -> new_expression st = true ->
  display_text st = "0" \/ display_text st = "Error" \/
  display_text st = "Error: Div/0" \/
  format_result (last_result st) = Ok (display_text st).
Proof.
  induction 1 as [| st st' t Hr IH Ha]; [now left | ].
  intro Hf. destruct t as [d | | o | | | ].
  - rewrite process_digit in Ha. injection Ha as <-. discriminate.
  - rewrite process_decimal_point in Ha. injection Ha as <-.
    destruct (new_expression st) eqn:Hn; [discriminate | ].
    destruct (str_in "." _); [congruence | discriminate].
  - rewrite process_operator in Ha. injection Ha as <-. discriminate.
  - rewrite process_clear in Ha. injection Ha as <-.
    destruct (new_expression st); [now apply IH | now left].
  - rewrite process_delete in Ha. injection Ha as <-.
    destruct (new_expression st) eqn:Hn; [now apply IH | ].
    cbn in Hf. congruence.
  - rewrite process_equals in Ha.
    destruct (new_expression st) eqn:Hn; [injection Ha as <-; now apply IH | ].
    apply evaluate_expression_returns in Ha.
    destruct Ha as [-> | [-> | [-> | [-> | (v & i & text & Hi & Ht & ->)]]]];
      cbn in Hf; try congruence; auto.
    right; right; right. cbn [last_result display_text].
    unfold format_result. now rewrite Hi.
Qed.

Lemma reachable_fresh_display_witness :
  reachable (mkState "-2.5" (VFloat (SFopp (float_of_decimal 25 (-1)))) true) /\
  ("-2.5" = "0" \/ "-2.5" = "Error" \/ "-2.5" = "Error: Div/0" \/
   format_result (VFloat (SFopp (float_of_decimal 25 (-1)))) = Ok "-2.5").
Proof.
  assert (Hr : reachable (mkState "-2.5" (VFloat (SFopp (float_of_decimal 25 (-1)))) true)).
  { apply (run_reachable
             [Operator Minus; Delete; Operator Minus; Digit D2; DecimalPoint;
              Digit D5; Equals]
             initial_state);
      [apply reachable_initial | vm_compute; reflexivity]. }
  split; [exact Hr | ].
  exact (reachable_fresh_display _ Hr eq_refl).
Defined.

(** ** Sequences of digits and operators *)

Lemma app_char_nonzero (t : string) (c : ascii) :
  t <> "" -> String.eqb (t ++ char c) "0" = false.
Proof.
  intro H. apply String.eqb_neq. intro E.
  apply (f_equal String.length) in E. rewrite length_app_str in E.
  destruct t; [contradiction | ]. cbn in E. lia.
Qed.

Lemma digit_text_is_char (d : digit) : exists c, digit_text d = char c.
Proof. destruct d; eexists; reflexivity. Qed.

(** Digits pressed behind a text other than ["0"] are appended to it. *)
Lemma run_digits_append (ds : list digit) (st : State) :
  new_expression st = false ->
  display_text st <> "" -> display_text st <> "0" ->
  run st (map Digit ds)
  = Returns (mkState (display_text st ++ digits_text ds) (last_result st) false).
Proof.
  revert st. induction ds as [| d ds IH]; intros st Hf Hne Hz.
  - cbn. rewrite app_empty_r. destruct st; cbn in *; now subst.
  - cbn [map run]. rewrite process_digit, Hf.
    apply String.eqb_neq in Hz. rewrite Hz. cbn [orb].
    rewrite IH; cbn [display_text last_result new_expression].
    + now rewrite app_assoc_str.
    + reflexivity.
    + apply app_nonempty. destruct d; discriminate.
    + destruct (digit_text_is_char d) as [c ->].
      apply String.eqb_neq. now apply app_char_nonzero.
Qed.

(** Digits pressed behind a single digit. *)
Lemma run_digits_after_digit (ds : list digit) (d : digit) (lr : pyval) :
  run (mkState (digit_text d) lr false) (map Digit ds)
  = Returns (mkState (digits_text (drop_leading_zeros (d :: ds))) lr false).
Proof.
  revert d. induction ds as [| d' ds IH]; intro d.
  - cbn [map run]. destruct d; reflexivity.
  - destruct d;
      [cbn [map run]; rewrite process_digit; cbn; exact (IH d') | ..];
      (rewrite run_digits_append;
       [reflexivity | reflexivity | discriminate | discriminate]).
Qed.

(** Digits pressed from a fresh start, or behind a lone ["0"]. *)
Lemma run_digits_fresh (st : State) (d : digit) (ds : list digit) :
  new_expression st = true \/
  (new_expression st = false /\ display_text st = "0") ->
  run st (map Digit (d :: ds))
  = Returns (mkState (digits_text (drop_leading_zeros (d :: ds)))
                     (last_result st) false).
Proof.
  intro H. cbn [map run]. rewrite process_digit.
  assert (E : new_expression st || String.eqb (display_text st) "0" = true).
  { destruct H as [-> | [_ ->]]; [reflexivity | apply orb_true_r]. }
  rewrite E. apply run_digits_after_digit.
Qed.

(** X5.  Digits pressed from a fresh start, or behind a lone ["0"],
    write the number without its leading zeros: a digit replaces the
    display ["0"] instead of following it.  [0 0 7 0] shows ["70"], and
    zeros alone show ["0"]. *)
Theorem digits_suppress_leading_zeros (st : State) (d : digit) (ds : list digit) :
  new_expression st = true \/
  (new_expression st = false /\ display_text st = "0") ->
  run st (map Digit (d :: ds))
  = Returns (mkState (digits_text (drop_leading_zeros (d :: ds)))
                     (last_result st) false).
Proof. apply run_digits_fresh. Qed.

Lemma digits_suppress_leading_zeros_witness :
  (new_expression initial_state = true \/
   (new_expression initial_state = false /\ display_text initial_state = "0")) /\
  run initial_state (map Digit [D0; D0; D7; D0])
  = Returns (mkState "70" (VInt 0) false).
Proof.
  assert (H : new_expression initial_state = true \/
              (new_expression initial_state = false /\
               display_text initial_state = "0")) by (left; reflexivity).
  split; [exact H | ].
  exact (digits_suppress_leading_zeros initial_state D0 [D0; D7; D0] H).
Defined.

(** X6.  Behind any other display, within an expression, the digits
    pressed are appended as they come, zeros included: behind ["1+"] the
    presses [0 0 5] give ["1+005"]. *)
Theorem digits_append_to_text (st : State) (ds : list digit) :
  new_expression st = false ->
  display_text st <> "" -> display_text st <> "0" ->
  run st (map Digit ds)
  = Returns (mkState (display_text st ++ digits_text ds) (last_result st) false).
Proof. intros. now apply run_digits_append. Qed.

Lemma digits_append_to_text_witness :
  new_expression (mkState "1+" (VInt 0) false) = false /\
  run (mkState "1+" (VInt 0) false) (map Digit [D0; D0; D5])
  = Returns (mkState "1+005" (VInt 0) false).
Proof.
  split; [reflexivity | ].
  apply (digits_append_to_text (mkState "1+" (VInt 0) false) [D0; D0; D5]);
    [reflexivity | discriminate | discriminate].
Defined.

Lemma run_app (a b : list Token) (st : State) :
  run st (a ++ b) =
  match run st a with
  | Returns st' => run st' b
  | Raises e st' => Raises e st'
  end.
Proof.
  revert st. induction a as [| t a IH]; intro st; [reflexivity | ].
  cbn [List.app run]. destruct (apply st t); [apply IH | reflexivity].
Qed.

Lemma operator_after_operator (st : State) (o1 o2 : operator) :
  run st [Operator o1; Operator o2] = run st [Operator o2].
Proof.
  cbn [run]. rewrite !process_operator. cbn [display_text last_result].
  destruct (operator_text_char o1) as [c [-> Hc]].
  unfold ends_with_operator at 1.
  now rewrite last_char_app_char, Hc, drop_last_app_char.
Qed.

(** X7.  Of any number of operators pressed in a row only the last one
    counts: the sequence leaves the state that the last operator alone
    would leave, whatever the state before. *)
Theorem last_operator_wins (st : State) (os : list operator) (o : operator) :
  run st (map Operator (os ++ [o])) = run st [Operator o].
Proof.
  revert st. induction os as [| o1 os IH]; intro st; [reflexivity | ].
  destruct os as [| o2 os].
  - apply operator_after_operator.
  - change (map Operator ((o1 :: o2 :: os) ++ [o]))
      with ([Operator o1; Operator o2] ++ map Operator (os ++ [o]))%list.
    rewrite run_app, operator_after_operator, <- run_app.
    exact (IH st).
Qed.

(** X8.  Within an expression Delete undoes the digit just pressed, and
    undoes an operator pressed behind an operand: the state is the one
    before the two presses. *)
Theorem delete_undoes_entry (st : State) (d : digit) (o : operator) :
  new_expression st = false -> display_text st <> "" ->
  run st [Digit d; Delete] = Returns st /\
  (ends_with_operator (display_text st) = false ->
   run st [Operator o; Delete] = Returns st).
Proof.
  destruct st as [txt lr ne]. cbn [new_expression display_text].
  intros -> Hne.
  assert (Hl : forall c, (1 <? String.length (txt ++ char c))%nat = true).
  { intro c. apply Nat.ltb_lt. rewrite length_app_str.
    destruct txt; [contradiction | cbn; lia]. }
  split.
  - cbn [run]. rewrite process_digit.
    cbn [new_expression display_text last_result orb].
    destruct (digit_text_is_char d) as [c Hc].
    destruct (String.eqb txt "0") eqn:Ez; rewrite process_delete, Hc;
      cbn [new_expression display_text set_display_text last_result].
    + apply String.eqb_eq in Ez. now subst txt.
    + now rewrite Hl, drop_last_app_char.
  - intro He. cbn [run]. rewrite process_operator.
    cbn [new_expression display_text last_result]. rewrite He, process_delete.
    cbn [new_expression display_text set_display_text last_result].
    destruct (operator_text_char o) as [c [-> _]].
    now rewrite Hl, drop_last_app_char.
Qed.

Lemma delete_undoes_entry_witness :
  new_expression (mkState "12+3" (VInt 0) false) = false /\
  run (mkState "12+3" (VInt 0) false) [Digit D4; Delete]
  = Returns (mkState "12+3" (VInt 0) false) /\
  run (mkState "12+3" (VInt 0) false) [Operator Times; Delete]
  = Returns (mkState "12+3" (VInt 0) false).
Proof.
  split; [reflexivity | ].
  destruct (delete_undoes_entry (mkState "12+3" (VInt 0) false) D4 Times)
    as [Hd Ho]; [reflexivity | discriminate | ].
  split; [exact Hd | apply Ho; reflexivity].
Defined.

(** ** Trailing operators and unsafe characters *)

Lemma strip_loop_suffix (fuel : nat) (s : string) :
  exists suffix : string,
    s = (strip_loop fuel s ++ suffix)%string /\
    all_chars is_operator_char suffix = true.
Proof.
  revert s. induction fuel as [| fuel IH]; intro s.
  - exists "". cbn. now rewrite app_empty_r.
  - cbn [strip_loop]. destruct (last_char s) as [c | ] eqn:El.
    + rewrite in_operators_char. destruct (is_operator_char c) eqn:Ec.
      * destruct (IH (drop_last s)) as (suffix & Hs & Ha).
        exists (suffix ++ char c)%string. split.
        -- rewrite <- app_assoc_str, <- Hs. now apply last_char_split.
        -- rewrite all_chars_app, Ha. cbn. now rewrite Ec.
      * exists "". now rewrite app_empty_r.
    + exists "". now rewrite app_empty_r.
Qed.

Lemma strip_loop_end (fuel : nat) (s : string) :
  (String.length s <= fuel)%nat ->
  ends_with_operator (strip_loop fuel s) = false.
Proof.
  revert s. induction fuel as [| fuel IH]; intros s Hl.
  - apply Nat.le_0_r, length_zero_empty in Hl. now subst.
  - cbn [strip_loop]. unfold ends_with_operator at 1.
    destruct (last_char s) as [c | ] eqn:El.
    + rewrite in_operators_char. destruct (is_operator_char c) eqn:Ec.
      * apply IH. rewrite length_drop_last. lia.
      * unfold ends_with_operator. now rewrite El.
    + now rewrite El.
Qed.

Lemma strip_loop_fixed (fuel : nat) (s : string) :
  ends_with_operator s = false -> strip_loop fuel s = s.
Proof.
  unfold ends_with_operator. destruct fuel as [| fuel]; [reflexivity | ].
  cbn [strip_loop]. destruct (last_char s) as [c | ]; [ | reflexivity].
  rewrite in_operators_char. now intros ->.
Qed.

Lemma strip_trailing_operators_suffix (s : string) :
  exists suffix : string,
    s = (strip_trailing_operators s ++ suffix)%string /\
    all_chars is_operator_char suffix = true.
Proof. apply strip_loop_suffix. Qed.

Lemma strip_trailing_operators_end (s : string) :
  ends_with_operator (strip_trailing_operators s) = false.
Proof. now apply strip_loop_end. Qed.

(** X9.  The loop at the head of [evaluate_expression] removes a suffix
    made of operators only, leaves a text that does not end with an
    operator, and changes nothing when run again on what it left. *)
Theorem strip_trailing_operators_spec (s : string) :
  (exists suffix : string,
     s = (strip_trailing_operators s ++ suffix)%string /\
     all_chars is_operator_char suffix = true) /\
  ends_with_operator (strip_trailing_operators s) = false /\
  strip_trailing_operators (strip_trailing_operators s)
  = strip_trailing_operators s.
Proof.
  split; [apply strip_trailing_operators_suffix | ].
  pose proof (strip_trailing_operators_end s) as H.
  split; [exact H | ].
  unfold strip_trailing_operators at 1. now apply strip_loop_fixed.
Qed.

Lemma all_operators_end (s : string) :
  all_chars is_operator_char s = true -> s <> "" ->
  ends_with_operator s = true.
Proof.
  unfold ends_with_operator.
  induction s as [| c s IH]; [contradiction | ].
  cbn [all_chars]. intros H _. apply andb_true_iff in H. destruct H as [Hc Hs].
  destruct s as [| d s]; [exact Hc | ].
  change (last_char (String c (String d s))) with (last_char (String d s)).
  apply IH; [exact Hs | discriminate].
Qed.

Lemma strip_all_operators (s : string) :
  all_chars is_operator_char s = true -> strip_trailing_operators s = "".
Proof.
  intro Ha.
  destruct (strip_trailing_operators_suffix s) as (suffix & Hs & _).
  pose proof (strip_trailing_operators_end s) as He.
  destruct (strip_trailing_operators s) as [| c p] eqn:E; [reflexivity | ].
  rewrite Hs, all_chars_app in Ha. apply andb_true_iff in Ha.
  destruct Ha as [Ha _].
  rewrite (all_operators_end _ Ha) in He; discriminate.
Qed.

(** X10.  When the display holds operators only, nothing is left of it
    after the trailing operators are removed: [evaluate_expression] shows
    ["0"] and touches neither [last_result] nor [new_expression]. *)
Theorem equals_on_operators_only (st : State) :
  all_chars is_operator_char (display_text st) = true ->
  evaluate_expression st = Returns (set_display_text st "0").
Proof.
  intro H. unfold evaluate_expression. now rewrite (strip_all_operators _ H).
Qed.

Lemma equals_on_operators_only_witness :
  run initial_state
      [Digit D3; Operator Minus; Digit D8; Equals; Operator Plus; Delete;
       Delete]
  = Returns (mkState "-" (VInt (-5)) false) /\
  all_chars is_operator_char "-" = true /\
  evaluate_expression (mkState "-" (VInt (-5)) false)
  = Returns (mkState "0" (VInt (-5)) false).
Proof.
  split; [vm_compute; reflexivity | split; [reflexivity | ]].
  apply (equals_on_operators_only (mkState "-" (VInt (-5)) false)).
  reflexivity.
Defined.

Lemma operator_char_safe (c : ascii) :
  is_operator_char c = true -> safe_char c = true.
Proof. unfold safe_char. intros ->. now rewrite orb_true_r. Qed.

(** X11.  A display with a character outside the class
    [[\d+\-*/.()\s]] fails [is_safe_expression] and shows ["Error"],
    without [eval] being reached; [last_result] and [new_expression] stay
    as they were.  An error marker continued with an operator is such a
    display. *)
Theorem unsafe_character_shows_error (st : State) :
  all_chars safe_char (display_text st) = false ->
  is_safe_expression (strip_trailing_operators (display_text st)) = false /\
  evaluate_expression st = Returns (set_display_text st "Error").
Proof.
  intro H.
  destruct (strip_trailing_operators_suffix (display_text st))
    as (suffix & Hs & Ha).
  set (p := strip_trailing_operators (display_text st)) in *.
  rewrite Hs, all_chars_app in H.
  rewrite (all_chars_impl _ _ suffix operator_char_safe Ha), andb_true_r in H.
  assert (Hsafe : is_safe_expression p = false).
  { unfold is_safe_expression.
    destruct (search_consecutive_operators p); [reflexivity | ].
    destruct (search_multiple_dots p); [reflexivity | ].
    destruct (match first_char p with Some c => str_in (char c) "+*/" | None => false end);
      [reflexivity | ].
    destruct (negb (Nat.eqb (count "(" p) (count ")" p))); [reflexivity | ].
    unfold match_safe_pattern. destruct p; [reflexivity | exact H]. }
  split; [exact Hsafe | ].
  unfold evaluate_expression. fold p.
  destruct (String.eqb p "") eqn:Ep.
  - apply String.eqb_eq in Ep. rewrite Ep in H. discriminate.
  - unfold try_body. now rewrite Hsafe.
Qed.

Lemma unsafe_character_shows_error_witness :
  run initial_state
      [Digit D1; Operator Divide; Digit D0; Equals; Operator Plus; Digit D2;
       Operator Times]
  = Returns (mkState "Error: Div/0+2*" (VInt 0) false) /\
  all_chars safe_char "Error: Div/0+2*" = false /\
  is_safe_expression (strip_trailing_operators "Error: Div/0+2*") = false /\
  evaluate_expression (mkState "Error: Div/0+2*" (VInt 0) false)
  = Returns (mkState "Error" (VInt 0) false).
Proof.
  split; [vm_compute; reflexivity | split; [reflexivity | ]].
  apply (unsafe_character_shows_error (mkState "Error: Div/0+2*" (VInt 0) false)).
  reflexivity.
Defined.

(** ** Decimal numerals *)

Lemma number_of_digits_acc (d : uint) (acc : positive) :
  number_of_digits (Zpos acc) (NilEmpty.string_of_uint d)
  = Zpos (Pos.of_uint_acc d acc).
Proof.
  revert acc.
  induction d; intro acc;
    cbn [NilEmpty.string_of_uint number_of_digits Pos.of_uint_acc];
    try reflexivity;
    match goal with
    | |- number_of_digits (10 * Z.pos ?a + digit_value ?c) _
         = Z.pos (Pos.of_uint_acc _ ?q) =>
        replace (10 * Z.pos a + digit_value c) with (Z.pos q)
          by (let v := eval vm_compute in (digit_value c) in
              change (digit_value c) with v; lia)
    end; apply IHd.
Qed.

Lemma number_of_digits_uint (d : uint) :
  number_of_digits 0 (NilEmpty.string_of_uint d) = Z.of_N (Pos.of_uint d).
Proof.
  induction d; cbn [NilEmpty.string_of_uint number_of_digits Pos.of_uint];
    try reflexivity; try exact IHd;
    match goal with
    | |- number_of_digits ?a _ = _ =>
        let p := eval cbn in a in change a with p
    end; apply number_of_digits_acc.
Qed.

Lemma N_to_uint_nonnil (n : N) : N.to_uint n <> Nil.
Proof.
  destruct n as [| p]; [discriminate | apply DecimalPos.Unsigned.to_uint_nonnil].
Qed.

Lemma digits_of_N_nil_empty (n : N) :
  digits_of_N n = NilEmpty.string_of_uint (N.to_uint n).
Proof.
  unfold digits_of_N, NilZero.string_of_uint.
  pose proof (N_to_uint_nonnil n). now destruct (N.to_uint n).
Qed.

(** Reading the decimal digits of [n] gives [n] back. *)
Lemma number_of_digits_of_N (n : N) :
  number_of_digits 0 (digits_of_N n) = Z.of_N n.
Proof.
  rewrite digits_of_N_nil_empty, number_of_digits_uint.
  change (Pos.of_uint (N.to_uint n)) with (N.of_uint (N.to_uint n)).
  now rewrite DecimalN.Unsigned.of_to.
Qed.

(** The digits of a positive number do not begin with a zero. *)
Lemma digits_of_pos_no_leading_zero (p : positive) :
  prefix "0" (digits_of_N (Npos p)) = false.
Proof.
  rewrite digits_of_N_nil_empty. cbn [N.to_uint].
  pose proof (DecimalPos.Unsigned.to_of (Pos.to_uint p)) as H.
  rewrite DecimalPos.Unsigned.of_to in H. cbn [N.to_uint] in H.
  pose proof (DecimalPos.Unsigned.to_uint_nonzero p) as Hz.
  pose proof (DecimalFacts.nzhead_nonzero (Pos.to_uint p)) as Hn.
  unfold unorm in H.
  destruct (Pos.to_uint p) as [| u | u | u | u | u | u | u | u | u | u] eqn:E;
    try reflexivity.
  exfalso. destruct (nzhead (Decimal.D0 u)) eqn:En; try discriminate.
  - now apply Hz.
  - injection H as <-. now apply (Hn u).
Qed.

(** ** Integers read back *)

Lemma ascii_digit_tests (c : ascii) :
  is_ascii_digit c = true ->
  Ascii.eqb c " " = false /\ (code c =? 9)%N = false /\
  (code c =? 12)%N = false /\ (code c =? 13)%N = false /\
  (code c =? 10)%N = false /\
  Ascii.eqb c "(" = false /\ Ascii.eqb c ")" = false /\
  Ascii.eqb c "+" = false /\ Ascii.eqb c "-" = false /\
  Ascii.eqb c "*" = false /\ Ascii.eqb c "/" = false /\
  Ascii.eqb c "." = false.
Proof.
  destruct c as [[] [] [] [] [] [] [] []]; intro H;
    try discriminate H; repeat split; reflexivity.
Qed.

Lemma lstrip_blanks_digits (s : string) :
  all_chars is_ascii_digit s = true -> lstrip_blanks s = s.
Proof.
  destruct s as [| c t]; [reflexivity | ].
  cbn [all_chars lstrip_blanks]. intro H.
  apply andb_true_iff in H. destruct H as [Hc _].
  destruct (ascii_digit_tests c Hc) as (-> & -> & _). reflexivity.
Qed.

Lemma translate_newlines_digits (s : string) :
  all_chars is_ascii_digit s = true -> translate_newlines s = s.
Proof.
  induction s as [| c t IH]; [reflexivity | ].
  cbn [all_chars translate_newlines]. intro H.
  apply andb_true_iff in H. destruct H as [Hc Ht].
  destruct (ascii_digit_tests c Hc) as (_ & _ & _ & -> & _).
  now rewrite IH.
Qed.

Lemma span_digits_all (s : string) :
  all_chars is_ascii_digit s = true -> span_digits s = (s, "").
Proof.
  induction s as [| c t IH]; [reflexivity | ].
  cbn [all_chars span_digits]. intro H.
  apply andb_true_iff in H. destruct H as [Hc Ht].
  now rewrite Hc, (IH Ht).
Qed.

(** A run of digits that ends the text is one token. *)
Lemma tokenize_digits (fuel : nat) (s : string) :
  s <> "" -> all_chars is_ascii_digit s = true ->
  tokenize (S fuel) s 0 false
  = match int_literal s with Some v => Some [TNum v] | None => None end.
Proof.
  intros Hne Ha. pose proof (span_digits_all s Ha) as Hs.
  destruct s as [| c t]; [contradiction | ].
  rewrite tokenize_S.
  cbn [all_chars] in Ha. apply andb_true_iff in Ha. destruct Ha as [Hc _].
  destruct (ascii_digit_tests c Hc)
    as (Hsp & Ht & Hff & _ & Hnl & Hl & Hr & Hp & Hm & Hst & Hsl & Hd).
  unfold is_blank, is_newline.
  rewrite Hsp, Ht, Hff, Hnl, Hl, Hr, Hp, Hm, Hst, Hsl, Hd, Hc, Hs.
  reflexivity.
Qed.

Lemma tokenize_digits_line (fuel : nat) (s : string) :
  s <> "" -> all_chars is_ascii_digit s = true ->
  tokenize (S (S fuel)) s 0 true
  = match int_literal s with Some v => Some [TNum v] | None => None end.
Proof.
  intros Hne Ha. rewrite <- (tokenize_digits fuel s Hne Ha).
  destruct s as [| c t]; [contradiction | ].
  rewrite (tokenize_S (S fuel)).
  cbn [all_chars] in Ha. apply andb_true_iff in Ha. destruct Ha as [Hc _].
  destruct (ascii_digit_tests c Hc) as (Hsp & Ht & Hff & _ & Hnl & _).
  cbn [indentation]. unfold is_newline. rewrite Hsp, Ht, Hff, Hnl.
  reflexivity.
Qed.

Lemma int_literal_digits_of_N (n : N) :
  (String.length (digits_of_N n) <= int_max_str_digits)%nat ->
  int_literal (digits_of_N n) = Some (VInt (Z.of_N n)).
Proof.
  intro Hl. unfold int_literal. rewrite number_of_digits_of_N.
  destruct n as [| p]; [reflexivity | ].
  change (Z.of_N (N.pos p) =? 0) with false. cbv iota.
  rewrite digits_of_pos_no_leading_zero.
  apply Nat.ltb_ge in Hl. now rewrite Hl.
Qed.

Lemma tokens_of_digits (n : N) :
  (String.length (digits_of_N n) <= int_max_str_digits)%nat ->
  tokens_of (digits_of_N n) = Some [TNum (VInt (Z.of_N n))].
Proof.
  intro Hl. unfold tokens_of.
  pose proof (digits_of_N_digits n) as Ha.
  pose proof (digits_of_N_nonempty n) as Hne.
  rewrite (lstrip_blanks_digits _ Ha), (translate_newlines_digits _ Ha).
  replace (2 * String.length (digits_of_N n) + 2)%nat
    with (S (S (2 * String.length (digits_of_N n))))%nat by lia.
  now rewrite (tokenize_digits_line _ _ Hne Ha), int_literal_digits_of_N.
Qed.

Lemma tokens_of_minus_digits (n : N) :
  (String.length (digits_of_N n) <= int_max_str_digits)%nat ->
  tokens_of ("-" ++ digits_of_N n) = Some [TMinus; TNum (VInt (Z.of_N n))].
Proof.
  intro Hl. unfold tokens_of.
  pose proof (digits_of_N_digits n) as Ha.
  pose proof (digits_of_N_nonempty n) as Hne.
  change ("-" ++ digits_of_N n) with (String "-" (digits_of_N n)).
  change (lstrip_blanks (String "-" (digits_of_N n)))
    with (String "-" (digits_of_N n)).
  change (translate_newlines (String "-" (digits_of_N n)))
    with (String "-" (translate_newlines (digits_of_N n))).
  rewrite (translate_newlines_digits _ Ha).
  replace (2 * String.length (String "-" (digits_of_N n)) + 2)%nat
    with (S (S (S (2 * String.length (digits_of_N n) + 1))))%nat
    by (cbn [String.length]; lia).
  rewrite (tokenize_S (S (S _))).
  change (indentation 0 (String "-" (digits_of_N n)))
    with (0%nat, String "-" (digits_of_N n)).
  cbv iota. change (is_newline "-") with false. cbv iota.
  change (Nat.eqb 0 0 && negb (Nat.eqb 0 0)) with false. cbv iota.
  rewrite (tokenize_S (S _)). cbv iota.
  change (is_blank "-") with false. change (is_newline "-") with false.
  change (Ascii.eqb "-" "(") with false. change (Ascii.eqb "-" ")") with false.
  change (Ascii.eqb "-" "+") with false. change (Ascii.eqb "-" "-") with true.
  cbv iota.
  now rewrite (tokenize_digits _ _ Hne Ha), int_literal_digits_of_N.
Qed.

(** [eval] of the decimal numeral of an integer is that integer. *)
Lemma py_eval_int_text (z : Z) :
  (String.length (int_digits z) <= int_max_str_digits)%nat ->
  py_eval (int_text z) = Ok (VInt z).
Proof.
  unfold int_text, int_digits, py_eval, py_parse. intro Hl.
  destruct (z <? 0) eqn:Ez.
  - rewrite (tokens_of_minus_digits _ Hl).
    change (parse_tokens [TMinus; TNum (VInt (Z.of_N (Z.abs_N z)))])
      with (Some (EUn UMinus (ENum (VInt (Z.of_N (Z.abs_N z)))))).
    cbn [eval_expr bind eval_unop py_neg]. apply Z.ltb_lt in Ez.
    do 2 f_equal. lia.
  - change ("" ++ digits_of_N (Z.abs_N z)) with (digits_of_N (Z.abs_N z)).
    rewrite (tokens_of_digits _ Hl).
    change (parse_tokens [TNum (VInt (Z.of_N (Z.abs_N z)))])
      with (Some (ENum (VInt (Z.of_N (Z.abs_N z))))).
    cbn [eval_expr]. apply Z.ltb_ge in Ez. do 2 f_equal. lia.
Qed.

Lemma digits_end (s : string) :
  all_chars is_ascii_digit s = true -> ends_with_operator s = false.
Proof.
  unfold ends_with_operator. intro Ha.
  destruct (last_char s) as [c | ] eqn:El; [ | reflexivity].
  rewrite (last_char_split s c El), all_chars_app in Ha. apply andb_true_iff in Ha.
  destruct Ha as [_ Hc]. cbn [char all_chars] in Hc.
  rewrite andb_true_r in Hc. apply digit_not_operator in Hc.
  now apply negb_true_iff in Hc.
Qed.

Lemma int_text_end (z : Z) : ends_with_operator (int_text z) = false.
Proof.
  unfold int_text, int_digits, ends_with_operator.
  pose proof (digits_of_N_digits (Z.abs_N z)) as Ha.
  pose proof (digits_of_N_nonempty (Z.abs_N z)) as Hne.
  pose proof (digits_end _ Ha) as He. unfold ends_with_operator in He.
  destruct (z <? 0); [ | exact He].
  destruct (digits_of_N (Z.abs_N z)) as [| c t]; [contradiction | exact He].
Qed.

Lemma digits_safe (s : string) :
  all_chars is_ascii_digit s = true -> all_chars safe_char s = true.
Proof.
  apply all_chars_impl. intros c H. unfold safe_char, re_digit. now rewrite H.
Qed.

Lemma digits_count (c : ascii) (s : string) :
  is_ascii_digit c = false ->
  all_chars is_ascii_digit s = true -> count c s = 0%nat.
Proof.
  intros Hc. induction s as [| a s IH]; [reflexivity | ].
  cbn [all_chars count]. intro H. apply andb_true_iff in H.
  destruct H as [Ha Hs]. rewrite (IH Hs).
  destruct (Ascii.eqb_spec a c) as [-> | _]; [congruence | reflexivity].
Qed.

Lemma int_text_safe (z : Z) : is_safe_expression (int_text z) = true.
Proof.
  unfold is_safe_expression.
  rewrite int_text_consecutive, (dot_free_search _ (int_text_dot_free z)).
  unfold int_text, int_digits.
  pose proof (digits_of_N_digits (Z.abs_N z)) as Ha.
  pose proof (digits_of_N_nonempty (Z.abs_N z)) as Hne.
  pose proof (digits_count "(" _ eq_refl Ha) as Hl.
  pose proof (digits_count ")" _ eq_refl Ha) as Hr.
  pose proof (digits_safe _ Ha) as Hs.
  destruct (z <? 0).
  - change ("-" ++ digits_of_N (Z.abs_N z))
      with (String "-" (digits_of_N (Z.abs_N z))).
    cbn [first_char count match_safe_pattern all_chars].
    rewrite Hl, Hr, Hs. reflexivity.
  - change ("" ++ digits_of_N (Z.abs_N z)) with (digits_of_N (Z.abs_N z)).
    destruct (digits_of_N (Z.abs_N z)) as [| c t] eqn:E; [contradiction | ].
    cbn [first_char]. rewrite str_in_char_leading.
    cbn [all_chars] in Ha. apply andb_true_iff in Ha. destruct Ha as [Hc _].
    destruct (ascii_digit_tests c Hc)
      as (_ & _ & _ & _ & _ & _ & _ & -> & _ & -> & -> & _).
    cbn [orb]. rewrite Hl, Hr. cbn [Nat.eqb negb].
    unfold match_safe_pattern. exact Hs.
Qed.

(** Evaluating the numeral of an integer gives the integer and leaves the
    numeral. *)
Lemma evaluate_int_text (z : Z) (lr : pyval) (ne : bool) :
  (String.length (int_digits z) <= int_max_str_digits)%nat ->
  evaluate_expression (mkState (int_text z) lr ne)
  = Returns (mkState (int_text z) (VInt z) true).
Proof.
  intro Hl.
  assert (Hs : strip_trailing_operators (int_text z) = int_text z)
    by apply strip_loop_fixed, int_text_end.
  apply (evaluate_integral (mkState (int_text z) lr ne) (VInt z) z);
    cbn [display_text]; rewrite ?Hs.
  - apply int_text_nonempty.
  - apply int_text_safe.
  - now apply py_eval_int_text.
  - reflexivity.
  - apply Z.eqb_refl.
  - exact Hl.
Qed.

(** X12.  [eval] reads the decimal numeral of an integer back as that
    integer, negative ones included, as long as the numeral has no more
    digits than [str] converts; [evaluate_expression] on such a display
    leaves the numeral on it and stores the integer in [last_result]. *)
Theorem integer_text_evaluates_to_itself (z : Z) (lr : pyval) (ne : bool) :
  (String.length (int_digits z) <= int_max_str_digits)%nat ->
  py_eval (int_text z) = Ok (VInt z) /\
  evaluate_expression (mkState (int_text z) lr ne)
  = Returns (mkState (int_text z) (VInt z) true).
Proof.
  intro Hl. split; [now apply py_eval_int_text | now apply evaluate_int_text].
Qed.

Lemma integer_text_evaluates_to_itself_witness :
  (String.length (int_digits (-120)) <= int_max_str_digits)%nat /\
  py_eval "-120" = Ok (VInt (-120)) /\
  evaluate_expression (mkState "-120" (VInt 7) false)
  = Returns (mkState "-120" (VInt (-120)) true).
Proof.
  assert (H : (String.length (int_digits (-120)) <= int_max_str_digits)%nat)
    by (vm_compute; lia).
  split; [exact H | ].
  exact (integer_text_evaluates_to_itself (-120) (VInt 7) false H).
Defined.

(** ** One decimal point per number *)

Lemma split_operators_from_free (piece d : string) :
  operator_free d = true -> split_operators_from piece d = [(piece ++ d)%string].
Proof.
  revert piece. induction d as [| c d IH]; intros piece H.
  - cbn. now rewrite app_empty_r.
  - unfold operator_free in H. cbn [all_chars] in H.
    apply andb_true_iff in H. destruct H as [Hc Hd].
    apply negb_true_iff in Hc. cbn [split_operators_from]. rewrite Hc.
    rewrite (IH _ Hd), app_assoc_str. reflexivity.
Qed.

(** Characters other than operators that follow a text extend the last
    piece that [re.split] gives. *)
Lemma last_piece_app_free (s d piece : string) :
  operator_free d = true ->
  last (split_operators_from piece (s ++ d)) ""
  = (last (split_operators_from piece s) "" ++ d)%string.
Proof.
  intro Hd. revert piece. induction s as [| c s IH]; intro piece.
  - change ("" ++ d)%string with d.
    now rewrite (split_operators_from_free _ _ Hd).
  - change (String c s ++ d)%string with (String c (s ++ d)).
    cbn [split_operators_from]. destruct (is_operator_char c); [ | apply IH].
    destruct (split_operators_from "" (s ++ d)) as [| y l] eqn:E1;
      [now elim (split_operators_from_nonempty "" (s ++ d)) | ].
    destruct (split_operators_from "" s) as [| y' l'] eqn:E2;
      [now elim (split_operators_from_nonempty "" s) | ].
    rewrite !last_cons_cons, <- E1, <- E2. apply IH.
Qed.

Lemma last_piece_keeps_dot (s d : string) :
  operator_free d = true ->
  str_in "." (last (split_operators s) "") = true ->
  str_in "." (last (split_operators (s ++ d)) "") = true.
Proof.
  intros Hd H. unfold split_operators in *.
  rewrite (last_piece_app_free _ _ _ Hd), str_in_dot, dot_free_app.
  rewrite str_in_dot in H. apply negb_true_iff in H. now rewrite H.
Qed.

Lemma last_piece_app_dot (s : string) :
  str_in "." (last (split_operators (s ++ ".")) "") = true.
Proof.
  unfold split_operators.
  rewrite (last_piece_app_free s "." "" eq_refl), str_in_dot, dot_free_app.
  now rewrite andb_false_r.
Qed.

Lemma digits_text_free (ds : list digit) : operator_free (digits_text ds) = true.
Proof.
  induction ds as [| d ds IH]; [reflexivity | ].
  cbn [digits_text]. rewrite operator_free_app, IH. now destruct d.
Qed.

Lemma piece_with_dot_text (s : string) :
  str_in "." (last (split_operators s) "") = true -> s <> "" /\ s <> "0".
Proof. intro H. split; intros ->; discriminate. Qed.

(** After the decimal point the display is in an expression whose last
    number has a dot. *)
Lemma after_decimal_point (st : State) :
  exists st' : State,
    apply st DecimalPoint = Returns st' /\
    new_expression st' = false /\
    str_in "." (last (split_operators (display_text st')) "") = true.
Proof.
  rewrite process_decimal_point. eexists. split; [reflexivity | ].
  destruct (new_expression st) eqn:Ef; [split; reflexivity | ].
  destruct (str_in "." (last (split_operators (display_text st)) "")) eqn:Ed.
  - now split.
  - split; [reflexivity | apply last_piece_app_dot].
Qed.

(** X13.  A second decimal point in one number is ignored: after a
    decimal point and any digits, pressing the decimal point again leaves
    the state as it is, whatever the state at the start. *)
Theorem second_decimal_point_is_ignored (st : State) (ds : list digit) :
  run st (DecimalPoint :: map Digit ds ++ [DecimalPoint])
  = run st (DecimalPoint :: map Digit ds).
Proof.
  cbn [run].
  destruct (after_decimal_point st) as (st1 & -> & Hf & Hd).
  destruct (piece_with_dot_text _ Hd) as [Hne Hz].
  rewrite run_app, (run_digits_append ds st1 Hf Hne Hz).
  cbn [run]. rewrite process_decimal_point.
  cbn [new_expression display_text].
  now rewrite (last_piece_keeps_dot _ _ (digits_text_free ds) Hd).
Qed.

(** ** A number typed and evaluated *)

Lemma digits_text_uint (ds : list digit) :
  digits_text ds = NilEmpty.string_of_uint (uint_of_digits ds).
Proof.
  induction ds as [| d ds IH]; [reflexivity | ].
  cbn [digits_text uint_of_digits]. rewrite IH. now destruct d.
Qed.

Lemma digits_value_from (ds : list digit) (acc : Z) :
  fold_left (fun acc d => 10 * acc + digit_number d) ds acc
  = number_of_digits acc (digits_text ds).
Proof.
  revert acc. induction ds as [| d ds IH]; intro acc; [reflexivity | ].
  cbn [fold_left digits_text]. rewrite IH. now destruct d.
Qed.

Lemma digits_value_uint (ds : list digit) :
  digits_value ds = Z.of_N (N.of_uint (uint_of_digits ds)).
Proof.
  unfold digits_value.
  now rewrite digits_value_from, digits_text_uint, number_of_digits_uint.
Qed.

Lemma drop_leading_zeros_unorm (d : digit) (ds : list digit) :
  uint_of_digits (drop_leading_zeros (d :: ds)) = unorm (uint_of_digits (d :: ds)).
Proof.
  revert d. induction ds as [| d' ds IH]; intro d.
  - now destruct d.
  - destruct d; try reflexivity.
    change (drop_leading_zeros (D0 :: d' :: ds))
      with (drop_leading_zeros (d' :: ds)).
    rewrite IH. reflexivity.
Qed.

Lemma unorm_nonnil (u : uint) : unorm u <> Nil.
Proof. unfold unorm. now destruct (nzhead u). Qed.

(** The digits without their leading zeros are the numeral of their
    value. *)
Lemma digits_text_int_text (d : digit) (ds : list digit) :
  digits_text (drop_leading_zeros (d :: ds)) = int_text (digits_value (d :: ds)).
Proof.
  rewrite digits_text_uint, drop_leading_zeros_unorm, digits_value_uint.
  unfold int_text, int_digits.
  pose proof (N2Z.is_nonneg (N.of_uint (uint_of_digits (d :: ds)))) as Hn.
  apply Z.ltb_ge in Hn. rewrite Hn, Zabs2N.id.
  change ("" ++ ?s)%string with s.
  unfold digits_of_N. rewrite DecimalN.Unsigned.to_of.
  unfold NilZero.string_of_uint.
  pose proof (unorm_nonnil (uint_of_digits (d :: ds))) as Hu.
  now destruct (unorm (uint_of_digits (d :: ds))).
Qed.

Lemma length_digits_text (ds : list digit) :
  String.length (digits_text ds) = List.length ds.
Proof.
  induction ds as [| d ds IH]; [reflexivity | ].
  cbn [digits_text List.length]. rewrite length_app_str, IH. now destruct d.
Qed.

Lemma length_drop_leading_zeros (ds : list digit) :
  (List.length (drop_leading_zeros ds) <= List.length ds)%nat.
Proof.
  induction ds as [| d ds IH]; [reflexivity | ].
  destruct d; try apply Nat.le_refl.
  destruct ds as [| d' ds]; [apply Nat.le_refl | ].
  change (drop_leading_zeros (D0 :: d' :: ds))
    with (drop_leading_zeros (d' :: ds)).
  cbn [List.length] in *. lia.
Qed.

(** X14.  A number of at most [int_max_str_digits] digits typed from a
    fresh start and followed by Equals shows that number, written without
    leading zeros, and stores it in [last_result] as an [int]. *)
Theorem typed_number_is_its_own_result (st : State) (d : digit) (ds : list digit) :
  new_expression st = true \/
  (new_expression st = false /\ display_text st = "0") ->
  (List.length (d :: ds) <= int_max_str_digits)%nat ->
  run st (map Digit (d :: ds) ++ [Equals])
  = Returns (mkState (int_text (digits_value (d :: ds)))
                     (VInt (digits_value (d :: ds))) true).
Proof.
  intros H Hl.
  rewrite run_app, (run_digits_fresh st d ds H).
  cbn [run]. rewrite process_equals. cbn [new_expression].
  rewrite digits_text_int_text.
  rewrite evaluate_int_text; [reflexivity | ].
  unfold int_digits.
  pose proof (digits_text_int_text d ds) as E.
  unfold int_text, int_digits in E.
  assert (Hn : (digits_value (d :: ds) <? 0) = false).
  { rewrite digits_value_uint. apply Z.ltb_ge, N2Z.is_nonneg. }
  rewrite Hn in E. change ("" ++ ?s)%string with s in E. rewrite <- E.
  rewrite length_digits_text.
  pose proof (length_drop_leading_zeros (d :: ds)). lia.
Qed.

Lemma typed_number_is_its_own_result_witness :
  (new_expression initial_state = true \/
   (new_expression initial_state = false /\ display_text initial_state = "0")) /\
  (List.length [D0; D0; D4; D2] <= int_max_str_digits)%nat /\
  run initial_state (map Digit [D0; D0; D4; D2] ++ [Equals])
  = Returns (mkState "42" (VInt 42) true).
Proof.
  assert (H : new_expression initial_state = true \/
              (new_expression initial_state = false /\
               display_text initial_state = "0")) by (left; reflexivity).
  assert (Hl : (List.length [D0; D0; D4; D2] <= int_max_str_digits)%nat)
    by (vm_compute; lia).
  split; [exact H | split; [exact Hl | ]].
  exact (typed_number_is_its_own_result initial_state D0 [D0; D4; D2] H Hl).
Defined.
